(** * RouteConfig: declarative route binding and request dispatch

    A shallow embedding of [src/RouteConfig.js]: the conditional middleware
    wrapper [maybe], the user-injection and server-sent-events middlewares,
    the upload middleware factory, the route scanner, the per-request
    dispatcher (controller resolution, prototype clone, request-scoped
    fields, method invocation, timeout race, response writing, error
    normalisation) and the fallback handlers.

    JavaScript values are an inductive type of data values; objects with
    identity (controller instances) live in a heap of own-property maps with
    a prototype link; effects are threaded through a small state-and-exception
    monad.

    What lies outside the module is kept at its interface.  The response
    object is a small machine of the framework: it logs every call made on
    it, keeps the status code last set, and sends its head once; a call that
    needs to set a header after the head is sent, or that sends the head with
    a status code out of range, throws.  The container, the OAuth server, the
    upload parser, the path matcher of the framework and the members of the
    application object other than its routing methods are parameters.  A
    controller method is a function of the heap, its receiver and its
    arguments: it reads the heap through its receiver, makes calls on the
    response it finds there, and returns a value or a promise, or throws; it
    does not write to the heap.  A promise is described by when it settles,
    counted from the moment it is raced; a timer by the delay the platform
    applies. *)

From stdpp Require Import base gmap strings list fin_maps pretty.
From Stdlib Require Import ZArith Lia Ascii.

Set Warnings "-register-all".
Open Scope string_scope.

(** ** JavaScript data values *)

Inductive JsValue : Type :=
| JUndefined
| JNull
| JBool (b : bool)
| JNum (n : Z)
| JStr (s : string)
| JArr (items : list JsValue)
| JObj (props : list (string * JsValue)).

(** [ToBoolean]: the falsy values are undefined, null, false, 0 and the empty
    string; every array and object is truthy. *)
Definition truthy (v : JsValue) : bool :=
  match v with
  | JUndefined | JNull => false
  | JBool b => b
  | JNum n => negb (n =? 0)%Z
  | JStr s => negb (String.eqb s "")
  | JArr _ | JObj _ => true
  end.

(** First binding of a key in an ordered property list. *)
Fixpoint assoc (k : string) (props : list (string * JsValue)) : option JsValue :=
  match props with
  | [] => None
  | (k', v) :: rest => if String.eqb k k' then Some v else assoc k rest
  end.

(** The index-keyed own properties of an array or of a string. *)
Definition indexedProps (items : list JsValue) : list (string * JsValue) :=
  imap (fun i v => (pretty i, v)) items.

Fixpoint chars (s : string) : list JsValue :=
  match s with
  | EmptyString => []
  | String c rest => JStr (String c EmptyString) :: chars rest
  end.

(** Own enumerable properties after [ToObject]; numbers and booleans have
    none.  Undefined and null have no object form and are handled by the
    callers. *)
Definition ownProps (v : JsValue) : list (string * JsValue) :=
  match v with
  | JObj props => props
  | JArr items => indexedProps items
  | JStr s => indexedProps (chars s)
  | _ => []
  end.

(** Errors are ordinary thrown values: [new Error(m)] is an object with a
    [message]. *)
Definition mkError (m : string) : JsValue := JObj [("message", JStr m)].

Definition typeError (m : string) : JsValue :=
  JObj [("name", JStr "TypeError"); ("message", JStr m)].

(** Result of a computation that may throw. *)
Inductive Completion (A : Type) : Type :=
| Normal (a : A)
| Throw (e : JsValue).
Arguments Normal {A} a.
Arguments Throw {A} e.

#[global] Instance Completion_ret : MRet Completion := fun A a => Normal a.

#[global] Instance Completion_bind : MBind Completion := fun A B f c =>
  match c with
  | Normal a => f a
  | Throw e => Throw e
  end.

(** Property read [v.k]: throws a TypeError on undefined and null, reads
    [length] and the index keys of arrays and strings, and yields undefined
    for an absent key. *)
Definition getProp (v : JsValue) (k : string) : Completion JsValue :=
  match v with
  | JUndefined | JNull =>
      Throw (typeError ("Cannot read property '" ++ k ++ "' of " ++
                        (if v is JNull then "null" else "undefined")))
  | JArr items =>
      if String.eqb k "length" then Normal (JNum (Z.of_nat (length items)))
      else Normal (default JUndefined (assoc k (indexedProps items)))
  | JStr s =>
      if String.eqb k "length" then Normal (JNum (Z.of_nat (String.length s)))
      else Normal (default JUndefined (assoc k (indexedProps (chars s))))
  | JObj props => Normal (default JUndefined (assoc k props))
  | JBool _ | JNum _ => Normal JUndefined
  end.

(** [nullthrows(x)]: returns [x] unless it is null or undefined. *)
Definition nullthrows (v : JsValue) : Completion JsValue :=
  match v with
  | JUndefined | JNull => Throw (mkError "Got unexpected null or undefined")
  | _ => Normal v
  end.

(** Object rest destructuring [const {k, ...rest} = v]: throws on undefined
    and null, otherwise copies every own enumerable property except [k]. *)
Definition objectRest (k : string) (v : JsValue) : Completion JsValue :=
  match v with
  | JUndefined | JNull =>
      Throw (typeError ("Cannot destructure property '" ++ k ++ "' of " ++
                        (if v is JNull then "null" else "undefined")))
  | _ => Normal (JObj (filter (fun kv => negb (String.eqb (fst kv) k)) (ownProps v)))
  end.

(** ** Conversions of the platform *)

(** [ToString] on data values; an array joins its elements with commas, null
    and undefined elements giving the empty string. *)
Fixpoint toString (v : JsValue) : string :=
  match v with
  | JUndefined => "undefined"
  | JNull => "null"
  | JBool b => if b then "true" else "false"
  | JNum n => pretty n
  | JStr s => s
  | JArr items =>
      (fix join (items : list JsValue) : string :=
         match items with
         | [] => ""
         | x :: rest =>
             (if x is (JUndefined | JNull) then "" else toString x)
               ++ (if rest is [] then "" else "," ++ join rest)
         end) items
  | JObj _ => "[object Object]"
  end.

(** [ToPropertyKey] of the value in a computed member access [o[v]]. *)
Definition toPropertyKey (v : JsValue) : string := toString v.

Definition digitOf (c : ascii) : option Z :=
  let n := nat_of_ascii c in
  if Nat.leb 48 n && Nat.leb n 57 then Some (Z.of_nat (n - 48)) else None.

(** The number a string of decimal digits spells; the empty string spells
    zero. *)
Fixpoint digitsValue (s : string) (acc : Z) : option Z :=
  match s with
  | EmptyString => Some acc
  | String c rest =>
      match digitOf c with
      | Some d => digitsValue rest (10 * acc + d)
      | None => None
      end
  end.

(** [x | 0] on an integer: reduction to a signed 32-bit integer. *)
Definition wrap32 (n : Z) : Z := ((n + 2147483648) mod 4294967296 - 2147483648)%Z.

(** [ToNumber] on the values that give an integer; [None] stands for the
    values that are not a number.  A string counts for the number it spells
    in decimal digits and an array of one number or one string for that
    element; every other string or array is taken as not a number. *)
Definition toNumber (v : JsValue) : option Z :=
  match v with
  | JUndefined | JObj _ => None
  | JNull => Some 0%Z
  | JBool b => Some (if b then 1 else 0)%Z
  | JNum n => Some n
  | JStr s => digitsValue s 0
  | JArr [] => Some 0%Z
  | JArr [JNum n] => Some n
  | JArr [JStr s] => digitsValue s 0
  | JArr _ => None
  end.

(** [v | 0], the conversion the platform applies to a status code. *)
Definition toInt32 (v : JsValue) : Z := wrap32 (default 0%Z (toNumber v)).

(** ** Objects with identity: the heap

    A controller instance is an object with a prototype link and writable own
    data properties.  The slots the dispatcher writes hold a reference to the
    request, a reference to the response, or a data value. *)

Abbreviation Ref := nat.

Inductive Slot : Type :=
| SData (v : JsValue)
| SRequest (id : nat)
| SResponse (id : nat).

Record HeapObject : Type := mkObject {
  proto : option Ref;
  own : gmap string Slot
}.

Abbreviation Heap := (gmap nat HeapObject).

(** [Object.create(p)]: a new object with no own property whose prototype is
    [p], at an address not in use. *)
Definition Object_create (p : Ref) (h : Heap) : Ref * Heap :=
  let a := fresh (dom h) in
  (a, <[a := mkObject (Some p) ∅]> h).

(** [a.k = v] on an object with data properties only: the own property [k]
    of the receiver itself is created or overwritten; the prototype chain is
    not touched.  References handed out by the container denote live objects;
    on an address that holds no object the write has no effect. *)
Definition setField (a : Ref) (k : string) (v : Slot) (h : Heap) : Heap :=
  alter (fun o => mkObject (proto o) (<[k := v]> (own o))) a h.

(** [a.k] as a read: own property first, then along the prototype chain. *)
Fixpoint lookupChain (fuel : nat) (h : Heap) (a : Ref) (k : string) : option Slot :=
  match fuel with
  | 0 => None
  | S n =>
      match h !! a with
      | None => None
      | Some o =>
          match own o !! k with
          | Some v => Some v
          | None =>
              match proto o with
              | Some p => lookupChain n h p k
              | None => None
              end
          end
      end
  end.

Definition getField (h : Heap) (a : Ref) (k : string) : option Slot :=
  lookupChain (S (size h)) h a k.


(** ** Requests and responses *)

Record Request : Type := mkRequest {
  reqId : nat;
  verb : string;
  path : string;
  params : gmap string JsValue;
  body : JsValue;
  user : JsValue;
  socketNoDelay : bool
}.

(** The calls made on the framework's response object, by this module and by
    controller methods. *)
Inductive ResponseCall : Type :=
| CallWriteHead (code : Z) (headers : list (string * string))
| CallStatus (code : JsValue)
| CallJson (payload : JsValue)
| CallSendStatus (code : Z).

(** What the framework sends after the head: the serialisation of a payload,
    the status message of a code, a body left open to later writes, or no
    body. *)
Inductive Body : Type :=
| BodyJson (payload : JsValue)
| BodyStatusMessage (code : Z)
| BodyStream (headers : list (string * string))
| BodyEmpty.

Record Sent : Type := mkSent {
  sentStatus : Z;
  sentBody : Body
}.

(** A response: the log of the calls made on it, the status code last set
    (200 on a new response), what has been sent, if anything, and what the
    framework knows of the request it answers: whether it is a HEAD request,
    and whether it is a conditional GET or HEAD request whose validators
    match what is sent. *)
Record Response : Type := mkResponse {
  resId : nat;
  locals_oauth : JsValue;
  calls : list ResponseCall;
  statusCode : JsValue;
  sent : option Sent;
  forHead : bool;
  validatorsMatch : bool
}.

Definition newResponse (id : nat) (oauth : JsValue) : Response :=
  mkResponse id oauth [] (JNum 200) None false false.

Definition record (c : ResponseCall) (response : Response) : Response :=
  mkResponse (resId response) (locals_oauth response) (calls response ++ [c])
             (statusCode response) (sent response)
             (forHead response) (validatorsMatch response).

Definition setStatusCode (code : JsValue) (response : Response) : Response :=
  mkResponse (resId response) (locals_oauth response) (calls response)
             code (sent response) (forHead response) (validatorsMatch response).

(** The status codes with which no body is transmitted. *)
Definition noBody (n : Z) : bool :=
  (n <? 200)%Z || (n =? 204)%Z || (n =? 205)%Z || (n =? 304)%Z.

(** The status codes for which a request whose validators match is answered
    with 304. *)
Definition cacheable (code : JsValue) : bool :=
  (if toNumber code is Some n then (200 <=? n)%Z && (n <? 300)%Z else false)
  || (if code is JNum n then (n =? 304)%Z else false).

(** What is transmitted when the framework is handed the body [b] with the
    status code [code] set: a body left open is sent as it is; otherwise the
    status becomes 304 when the validators of the request match, and the body
    is dropped for a HEAD request and with a status code that allows none. *)
Definition transmit (response : Response) (code : JsValue) (b : Body) : Sent :=
  match b with
  | BodyStream _ => mkSent (toInt32 code) b
  | _ =>
      let n := if validatorsMatch response && cacheable code
               then 304%Z else toInt32 code in
      mkSent n (if forHead response || noBody n then BodyEmpty else b)
  end.

Definition send (b : Body) (response : Response) : Response :=
  mkResponse (resId response) (locals_oauth response) (calls response)
             (statusCode response)
             (Some (transmit response (statusCode response) b))
             (forHead response) (validatorsMatch response).

(** The head is written with a status code between 100 and 999, after the
    conversion [code | 0]. *)
Definition validStatus (code : JsValue) : bool :=
  (100 <=? toInt32 code)%Z && (toInt32 code <=? 999)%Z.

Definition headersSentError : JsValue :=
  JObj [("code", JStr "ERR_HTTP_HEADERS_SENT");
        ("message", JStr "Cannot set headers after they are sent to the client")].

Definition invalidStatusError (code : JsValue) : JsValue :=
  JObj [("code", JStr "ERR_HTTP_INVALID_STATUS_CODE");
        ("message", JStr ("Invalid status code: " ++ toString code))].

(** Sending the head and a body: a header cannot be set once the head is
    sent, and the head cannot be written with a status code out of range. *)
Definition sendBody (b : Body) (response : Response) : Completion unit * Response :=
  if sent response is Some _ then (Throw headersSentError, response)
  else if validStatus (statusCode response) then (Normal tt, send b response)
  else (Throw (invalidStatusError (statusCode response)), response).

(** One call on the response.  [status] sets the status code and nothing
    else; [json] sends the head and the body; [sendStatus] sets the status
    code and sends the head and the body; [writeHead] checks the head and the
    status code before it sets the code, sends the head and leaves the body
    open. *)
Definition perform (c : ResponseCall) (response : Response)
  : Completion unit * Response :=
  let logged := record c response in
  match c with
  | CallStatus code => (Normal tt, setStatusCode code logged)
  | CallJson payload => sendBody (BodyJson payload) logged
  | CallSendStatus code =>
      sendBody (BodyStatusMessage code) (setStatusCode (JNum code) logged)
  | CallWriteHead code headers =>
      if sent logged is Some _ then (Throw headersSentError, logged)
      else if validStatus (JNum code)
           then (Normal tt, send (BodyStream headers) (setStatusCode (JNum code) logged))
           else (Throw (invalidStatusError (JNum code)), logged)
  end.

(** A sequence of calls made by code that keeps going when one of them
    throws. *)
Definition performAll (cs : list ResponseCall) (response : Response) : Response :=
  foldl (fun r c => (perform c r).2) response cs.

(** The status message of the framework for the one code this module hands
    to [sendStatus]. *)
Definition statusMessage (code : Z) : option string :=
  if (code =? 404)%Z then Some "Not Found" else None.

(** ** Middleware

    A middleware either hands over to the next stage (possibly with an
    updated request and response), hands an error to the framework, or ends
    the chain itself. *)
Inductive MwResult : Type :=
| MwNext (request : Request) (response : Response)
| MwNextError (error : JsValue) (request : Request) (response : Response)
| MwStop (response : Response).

Definition Middleware : Type := Request -> Response -> MwResult.

Definition maybe (middleware : Middleware) (condition : JsValue) : Middleware :=
  fun request response =>
    if truthy condition then middleware request response
    else MwNext request response.

(** [a && b] where [b] is a property read of [a]. *)
Definition andProp (a : JsValue) (k : string) : Completion JsValue :=
  if truthy a then getProp a k else Normal a.

Definition setUser (request : Request) (u : JsValue) : Request :=
  mkRequest (reqId request) (verb request) (path request) (params request)
            (body request) u (socketNoDelay request).

Definition injectUserMiddleware : Middleware :=
  fun request response =>
    let oauthInfo := locals_oauth response in
    if truthy oauthInfo then
      match getProp oauthInfo "token" with
      | Throw e => MwNextError e request response
      | Normal token =>
          match andProp token "user" with
          | Throw e => MwNextError e request response
          | Normal u => MwNext (setUser request u) response
          end
      end
    else MwNext request response.

Definition setNoDelay (request : Request) : Request :=
  mkRequest (reqId request) (verb request) (path request) (params request)
            (body request) (user request) true.

Definition sseHeaders : list (string * string) :=
  [("Cache-Control", "no-cache"); ("Connection", "keep-alive");
   ("Content-Type", "text/event-stream")].

(** An exception thrown by a middleware is caught by the framework and
    handed over as an error. *)
Definition serverSentEventsMiddleware : Middleware :=
  fun request response =>
    match perform (CallWriteHead 200 sseHeaders) response with
    | (Normal _, response') => MwNext (setNoDelay request) response'
    | (Throw e, response') => MwNextError e (setNoDelay request) response'
    end.

(** ** Deferred computations and [Promise.race]

    A deferred computation is observed from the moment the dispatcher races
    it: it is already settled then, or it settles some milliseconds later, or
    it never settles. *)

Inductive Settlement : Type :=
| Fulfilled (v : JsValue)
| Rejected (e : JsValue).

Inductive Deferred : Type :=
| AlreadySettled (o : Settlement)
| SettlesAfter (ms : nat) (o : Settlement)
| NeverSettles.

(** What a controller method hands back: a plain value or a promise. *)
Inductive FunctionResult : Type :=
| Value (v : JsValue)
| Promise (d : Deferred).

(** Position of a settlement in time: a promise already settled comes before
    every one that is still pending, a pending one is ordered by its delay. *)
Definition settleRank (d : Deferred) : option nat :=
  match d with
  | AlreadySettled _ => Some 0
  | SettlesAfter ms _ => Some (S ms)
  | NeverSettles => None
  end.

(** Of two racers the one that settles first; on a tie the one subscribed
    first, as its reaction is queued first. *)
Definition firstOf (a b : Deferred) : Deferred :=
  match settleRank a, settleRank b with
  | None, _ => b
  | _, None => a
  | Some ta, Some tb => if Nat.ltb tb ta then b else a
  end.

(** [Promise.resolve(x)]: a promise is taken as it is, any other value is an
    already fulfilled promise of that value. *)
Definition PromiseResolve (x : FunctionResult) : Deferred :=
  match x with
  | Promise d => d
  | Value v => AlreadySettled (Fulfilled v)
  end.

(** [Promise.race(entries)] settles as the first of its entries to settle. *)
Definition PromiseRace (entries : list FunctionResult) : Deferred :=
  foldr firstOf NeverSettles (map PromiseResolve entries).


(** The delay [setTimeout] applies: a delay below 1 or above 2^31-1
    milliseconds is replaced by 1. *)
Definition timerDelay (ms : Z) : nat :=
  if (1 <=? ms)%Z && (ms <=? 2147483647)%Z then Z.to_nat ms else 1.

(** [new Promise((resolve, reject) => setTimeout(() => reject(e), ms))]. *)
Definition rejectAfter (ms : Z) (e : JsValue) : Deferred :=
  SettlesAfter (timerDelay ms) (Rejected e).

(** ** The monad of handler code

    State: the heap, the response of the request at hand, and the record of
    the controller-method invocations made so far (receiver and arguments).
    A computation completes with a value, throws, or waits for ever on a
    computation that never settles. *)

Record State : Type := mkState {
  stHeap : Heap;
  stResponse : Response;
  stInvoked : list (Ref * list JsValue)
}.

Inductive Result (A : Type) : Type :=
| Done (a : A)
| Raised (e : JsValue)
| Forever.
Arguments Done {A} a.
Arguments Raised {A} e.
Arguments Forever {A}.

Definition M (A : Type) : Type := State -> Result A * State.

#[global] Instance M_ret : MRet M := fun A a s => (Done a, s).

#[global] Instance M_bind : MBind M := fun A B f m s =>
  match m s with
  | (Done a, s') => f a s'
  | (Raised e, s') => (Raised e, s')
  | (Forever, s') => (Forever, s')
  end.

Definition liftC {A} (c : Completion A) : M A :=
  fun s => match c with Normal a => (Done a, s) | Throw e => (Raised e, s) end.

(** [try { body } catch (error) { handler error }]. *)
Definition tryCatch {A} (body : M A) (handler : JsValue -> M A) : M A :=
  fun s => match body s with
           | (Raised e, s') => handler e s'
           | r => r
           end.

Definition settlement (d : Deferred) : option Settlement :=
  match d with
  | AlreadySettled o | SettlesAfter _ o => Some o
  | NeverSettles => None
  end.

(** [await d]. *)
Definition await (d : Deferred) : M JsValue :=
  fun s => match settlement d with
           | Some (Fulfilled v) => (Done v, s)
           | Some (Rejected e) => (Raised e, s)
           | None => (Forever, s)
           end.

Definition onHeap {A} (f : Heap -> A * Heap) : M A :=
  fun s => let '(a, h) := f (stHeap s) in
           (Done a, mkState h (stResponse s) (stInvoked s)).

Definition writeField (a : Ref) (k : string) (v : Slot) : M unit :=
  onHeap (fun h => (tt, setField a k v h)).

Definition withResponse (s : State) (response : Response) : State :=
  mkState (stHeap s) response (stInvoked s).

(** A call on the response of the request at hand. *)
Definition respond (c : ResponseCall) : M unit :=
  fun s => match perform c (stResponse s) with
           | (Normal _, response) => (Done tt, withResponse s response)
           | (Throw e, response) => (Raised e, withResponse s response)
           end.

Definition theResponse : M Response := fun s => (Done (stResponse s), s).

(** ** The error normaliser *)

Record HttpErrorFields : Type := mkHttpError {
  status : Z;
  message : string
}.

(** Modelled from the spec: the class [HttpError] of [./lib/HttpError], which
    is imported by the source and not part of it.  Any thrown value is mapped
    to a status and a message: a status the error already carries is
    preserved, otherwise the internal-error status 500 is used; the message
    is the error's own message and nothing else of the error. *)
Definition HttpError (error : JsValue) : HttpErrorFields :=
  mkHttpError
    (match error with
     | JObj props => if assoc "status" props is Some (JNum n) then n else 500%Z
     | _ => 500%Z
     end)
    (match error with
     | JStr m => m
     | JObj props => if assoc "message" props is Some (JStr m) then m else ""
     | _ => ""
     end).

(** ** Named parameters of a path pattern *)

Definition isWordChar (c : ascii) : bool :=
  let n := nat_of_ascii c in
  (Nat.leb 48 n && Nat.leb n 57) || (Nat.leb 65 n && Nat.leb n 90)
  || (Nat.leb 97 n && Nat.leb n 122) || Nat.eqb n 95.

Definition isColon (c : ascii) : bool := Ascii.eqb c ":"%char.

Definition flush (current : option string) : list string :=
  match current with
  | Some m => [m]
  | None => []
  end.

(** [s.match(/:[\w]*/g) || []]: the scan of the global regular expression.
    [current] is the match in progress: it starts at a colon, grows greedily
    over word characters and ends before the first other character, where the
    scan resumes. *)
Fixpoint matchColonWords (s : string) (current : option string) : list string :=
  match s with
  | EmptyString => flush current
  | String c rest =>
      if isColon c then flush current ++ matchColonWords rest (Some ":")
      else
        match current with
        | Some m =>
            if isWordChar c
            then matchColonWords rest (Some (m ++ String c EmptyString))
            else m :: matchColonWords rest None
        | None => matchColonWords rest None
        end
  end.

(** [s.replace(':', '')]: the first colon of [s] is removed. *)
Fixpoint removeFirstColon (s : string) : string :=
  match s with
  | EmptyString => EmptyString
  | String c rest => if isColon c then rest else String c (removeFirstColon rest)
  end.

Definition argumentNamesOf (route : string) : list string :=
  map removeFirstColon (matchColonWords route None).

(** The named parameters as the specification words them: every colon of the
    pattern, in order, with the word that follows it (the longest run of word
    characters, which is empty when none follows). *)
Fixpoint wordPrefix (s : string) : string :=
  match s with
  | EmptyString => EmptyString
  | String c rest => if isWordChar c then String c (wordPrefix rest) else EmptyString
  end.

Fixpoint namedParameters (pattern : string) : list string :=
  match pattern with
  | EmptyString => []
  | String c rest =>
      if isColon c then wordPrefix rest :: namedParameters rest
      else namedParameters rest
  end.


(** ** Controllers, settings and bindings *)

(** A method of a controller with the routing metadata attached to it.
    [call h this args] is [method.call(this, ...args)]: the method reads the
    heap through its receiver and returns a value or a promise, or throws.
    [writes h this args] are the calls the method makes on the response it
    finds on its receiver, each with its position in time, counted as the
    settlements are: 0 for a call made during the invocation, [S ms] for a
    call made [ms] milliseconds later. *)
Record ControllerMethod : Type := mkMethod {
  allowedUploads : JsValue;
  anonymous : JsValue;
  httpVerb : JsValue;
  route : string;
  serverSentEvents : JsValue;
  call : Heap -> Ref -> list JsValue -> Completion FunctionResult;
  writes : Heap -> Ref -> list JsValue -> list (nat * ResponseCall)
}.

Record Settings : Type := mkSettings {
  ACCESS_TOKEN_LIFETIME : Z;
  API_TIMEOUT : Z;
  LOGIN_ROUTE : string
}.

(** A route registered with the application: verb ([None] for [all]), path
    pattern, middleware chain and terminal handler. *)
Record Layer : Type := mkLayer {
  layerVerb : option string;
  layerPath : string;
  layerChain : list Middleware;
  layerHandler : option (Request -> M unit)
}.

(** How the handling of one request ends: a handler ran to its end, an error
    left the handler (its promise is rejected), the handler waits for ever,
    or no layer took the request. *)
Inductive Outcome : Type :=
| Responded
| Escaped (error : JsValue)
| Unsettled
| Unhandled.

Definition errorBody (m : JsValue) : JsValue :=
  JObj [("error", m); ("ok", JBool false)].

(** The routing methods of the application object: [app[m](path, ...)]
    registers a route under the verb [m] for each of these names. *)
Definition httpMethods : list string :=
  ["get"; "post"; "put"; "head"; "delete"; "options"; "trace"; "copy"; "lock";
   "mkcol"; "move"; "purge"; "propfind"; "proppatch"; "unlock"; "report";
   "mkactivity"; "checkout"; "merge"; "m-search"; "notify"; "subscribe";
   "unsubscribe"; "patch"; "search"; "connect"].

(** The calls a method has made on the response by the time the dispatcher
    resumes at [rank]; when it never resumes, all of them. *)
Definition madeBy (rank : option nat) (w : nat * ResponseCall) : bool :=
  match rank with
  | Some t => Nat.leb w.1 t
  | None => true
  end.

Definition writesUntil (rank : option nat) (ws : list (nat * ResponseCall))
  : list ResponseCall :=
  map snd (filter (fun w => madeBy rank w) ws).

(** ** The route configuration *)

Section RouteConfig.

(** The capabilities the module consumes: the container, the controllers'
    methods (the own properties of a controller's prototype, read through
    the instance), the OAuth server's middlewares, the upload parser, the
    members of the application object other than its routing methods, the
    framework's path matcher and the settings.  [app_member key path] is the
    call [app[key](path, ...stages)] for a [key] that is not a routing
    method: it throws, or it returns the verbs and patterns under which the
    stages are registered, if under any. *)
Variable constitute : string -> Heap -> Completion Ref * Heap.
Variable methodsOf : Ref -> list ControllerMethod.
Variable oauth_authenticate : Middleware.
Variable oauth_token : Middleware.
Variable multer_fields : JsValue -> Middleware.
Variable multer_any : Middleware.
Variable app_member : string -> string -> Completion (list (option string * string)).
Variable matchPath : string -> string -> option (gmap string JsValue).
Variable settings : Settings.

Definition container_constitute (name : string) : M Ref :=
  fun s =>
    match constitute name (stHeap s) with
    | (Normal a, h) => (Done a, mkState h (stResponse s) (stInvoked s))
    | (Throw e, h) => (Raised e, mkState h (stResponse s) (stInvoked s))
    end.

(** The parameter default [= []] applies to undefined only. *)
Definition filesMiddleware (allowedUploads : JsValue) : Completion Middleware :=
  let allowedUploads :=
    if allowedUploads is JUndefined then JArr [] else allowedUploads in
  checked ← nullthrows allowedUploads;
  len ← getProp checked "length";
  mret (if truthy len then multer_fields allowedUploads else multer_any).

(** [functionResult.then], as a condition. *)
Definition hasThen (functionResult : FunctionResult) : Completion bool :=
  match functionResult with
  | Promise _ => Normal true
  | Value v => t ← getProp v "then"; mret (truthy t)
  end.

Definition resultProp (functionResult : FunctionResult) (k : string)
  : Completion JsValue :=
  match functionResult with
  | Promise _ => Normal JUndefined
  | Value v => getProp v k
  end.

(** Lines 140-148: the second entry of the race. *)
Definition raceGuard (serverSentEvents : JsValue) : FunctionResult :=
  if negb (truthy serverSentEvents)
  then Promise (rejectAfter (API_TIMEOUT settings) (mkError "timeout"))
  else Value JNull.

(** Line 138: the race of the method's result. *)
Definition theRace (mappedFunction : ControllerMethod)
           (functionResult : FunctionResult) : Deferred :=
  PromiseRace [functionResult; raceGuard (serverSentEvents mappedFunction)].

(** The moment at which the dispatcher goes on after the invocation: at once
    when the method throws or when its result is not awaited, otherwise when
    the race settles. *)
Definition resumeRank (mappedFunction : ControllerMethod)
           (outcome : Completion FunctionResult) : option nat :=
  match outcome with
  | Throw _ => Some 0
  | Normal functionResult =>
      if hasThen functionResult is Normal true
      then settleRank (theRace mappedFunction functionResult)
      else Some 0
  end.

(** Lines 131-135: the invocation.  The dispatcher makes no call on the
    response between the invocation and the moment it goes on, so the calls
    the method makes on the response until then are performed here. *)
Definition invoke (mappedFunction : ControllerMethod) (this : Ref)
           (args : list JsValue) : M FunctionResult :=
  fun s =>
    let outcome := call mappedFunction (stHeap s) this args in
    let early := writesUntil (resumeRank mappedFunction outcome)
                             (writes mappedFunction (stHeap s) this args) in
    liftC outcome
          (mkState (stHeap s) (performAll early (stResponse s))
                   (stInvoked s ++ [(this, args)])).

(** Lines 109-118: the instance of this request. *)
Definition resolveInstance (controllerName : string) (controller : Ref) : M Ref :=
  controllerInstance ← container_constitute controllerName;
  if decide (controllerInstance = controller)
  then onHeap (Object_create controllerInstance)
  else mret controllerInstance.

(** Lines 120-122: the request-scoped fields. *)
Definition attachState (controllerInstance : Ref) (request : Request) : M unit :=
  response ← theResponse;
  writeField controllerInstance "request" (SRequest (reqId request));;
  writeField controllerInstance "response" (SResponse (resId response));;
  writeField controllerInstance "user" (SData (user request)).

(** Lines 137-155: the [try] block after the invocation. *)
Definition respondResult (mappedFunction : ControllerMethod)
           (functionResult : FunctionResult) : M unit :=
  isThenable ← liftC (hasThen functionResult);
  if isThenable : bool then
    result ← await (theRace mappedFunction functionResult);
    checked ← liftC (nullthrows result);
    code ← liftC (getProp checked "status");
    respond (CallStatus code);;
    checked ← liftC (nullthrows result);
    data ← liftC (getProp checked "data");
    respond (CallJson data)
  else
    code ← liftC (resultProp functionResult "status");
    respond (CallStatus code);;
    data ← liftC (resultProp functionResult "data");
    respond (CallJson data).

(** Lines 130-155: the body of the [try] block. *)
Definition invokeAndRespond (mappedFunction : ControllerMethod)
           (controllerInstance : Ref) (args : list JsValue) : M unit :=
  functionResult ← invoke mappedFunction controllerInstance args;
  respondResult mappedFunction functionResult.

(** Lines 156-162: the [catch] block. *)
Definition respondError (error : JsValue) : M unit :=
  let httpError := HttpError error in
  respond (CallStatus (JNum (status httpError)));;
  respond (CallJson (errorBody (JStr (message httpError)))).

(** Lines 102-163: the terminal handler of a bound method. *)
Definition dispatcher (controllerName : string) (controller : Ref)
           (mappedFunction : ControllerMethod) (request : Request) : M unit :=
  let argumentNames := argumentNamesOf (route mappedFunction) in
  let values :=
    map (fun argument => default JUndefined (params request !! argument))
        argumentNames in
  controllerInstance ← resolveInstance controllerName controller;
  attachState controllerInstance request;;
  body ← liftC (objectRest "access_token" (body request));
  tryCatch (invokeAndRespond mappedFunction controllerInstance (values ++ [body]))
           respondError.

(** The chain of a bound method (lines 98-101) and its registration. *)
Definition stagesOf (mappedFunction : ControllerMethod) (files : Middleware)
  : list Middleware :=
  [maybe oauth_authenticate (JBool (negb (truthy (anonymous mappedFunction))));
   maybe serverSentEventsMiddleware (serverSentEvents mappedFunction);
   injectUserMiddleware;
   maybe files (allowedUploads mappedFunction)].

(** [app[key](path, ...stages)]: a routing method registers the stages under
    its verb. *)
Definition registrations (key path : string)
  : Completion (list (option string * string)) :=
  if decide (key ∈ httpMethods) then Normal [(Some key, path)]
  else app_member key path.

(** Lines 84-163: one method of a controller.  A method without a verb is
    skipped; otherwise the arguments of the registration call are evaluated
    in order, the upload middleware among them, and the member of the
    application that the verb names is called with them. *)
Definition bindMethod (controllerName : string) (controller : Ref)
           (mappedFunction : ControllerMethod) : Completion (list Layer) :=
  if negb (truthy (httpVerb mappedFunction)) then mret []
  else
    files ← filesMiddleware (allowedUploads mappedFunction);
    registered ← registrations (toPropertyKey (httpVerb mappedFunction))
                               (route mappedFunction);
    mret (map (fun r : option string * string =>
                 mkLayer r.1 r.2 (stagesOf mappedFunction files)
                         (Some (dispatcher controllerName controller mappedFunction)))
              registered).

Fixpoint bindMethods (controllerName : string) (controller : Ref)
         (methods : list ControllerMethod) : Completion (list Layer) :=
  match methods with
  | [] => mret []
  | mappedFunction :: rest =>
      bound ← bindMethod controllerName controller mappedFunction;
      others ← bindMethods controllerName controller rest;
      mret (bound ++ others)%list
  end.

(** Lines 79-165: the scan of the controllers. *)
Fixpoint bindControllers (controllers : list string) (h : Heap)
  : Completion (list Layer) * Heap :=
  match controllers with
  | [] => (Normal [], h)
  | controllerName :: rest =>
      match constitute controllerName h with
      | (Throw e, h1) => (Throw e, h1)
      | (Normal controller, h1) =>
          match bindMethods controllerName controller (methodsOf controller) with
          | Throw e => (Throw e, h1)
          | Normal bound =>
              match bindControllers rest h1 with
              | (Throw e, h2) => (Throw e, h2)
              | (Normal others, h2) => (Normal (bound ++ others)%list, h2)
              end
          end
      end
  end.

(** Lines 167-169. *)
Definition notFound : Request -> M unit :=
  fun _ => respond (CallSendStatus 404).

(** Lines 58-169: the routes in the order of their registration: the login
    route, the controllers' routes, the catch-all. *)
Definition routeConfig (controllers : list string) (h : Heap)
  : Completion (list Layer) * Heap :=
  match constitute "UserRepository" h with
  | (Throw e, h0) => (Throw e, h0)
  | (Normal _, h0) =>
      match bindControllers controllers h0 with
      | (Throw e, h1) => (Throw e, h1)
      | (Normal bound, h1) =>
          (Normal ([mkLayer (Some "post") (LOGIN_ROUTE settings) [oauth_token] None]
                   ++ bound
                   ++ [mkLayer None "*" [] (Some notFound)])%list, h1)
      end
  end.

(** Lines 171-184: the error-handling middleware of the application. *)
Definition errorHandler (error : JsValue) : M unit :=
  respond (CallStatus (JNum 400));;
  code ← liftC (getProp error "code");
  respond (CallJson (errorBody (if truthy code then code else error))).

(** ** The framework's router

    A route takes the requests of its verb; a route of the verb [get] takes
    HEAD requests as well. *)

Definition layerMatches (layer : Layer) (request : Request)
  : option (gmap string JsValue) :=
  if (if layerVerb layer is Some v
      then String.eqb v (verb request)
           || (String.eqb v "get" && String.eqb (verb request) "head")
      else true)
  then
    if String.eqb (layerPath layer) "*"
    then Some {["0" := JStr (path request)]}
    else matchPath (layerPath layer) (path request)
  else None.

Definition setParams (request : Request) (ps : gmap string JsValue) : Request :=
  mkRequest (reqId request) (verb request) (path request) ps
            (body request) (user request) (socketNoDelay request).

Fixpoint runChain (chain : list Middleware) (request : Request)
         (response : Response) : MwResult :=
  match chain with
  | [] => MwNext request response
  | middleware :: rest =>
      match middleware request response with
      | MwNext request' response' => runChain rest request' response'
      | stopped => stopped
      end
  end.

Definition runHandler (handler : M unit) (s : State) : Outcome * State :=
  match handler s with
  | (Done _, s') => (Responded, s')
  | (Raised e, s') => (Escaped e, s')
  | (Forever, s') => (Unsettled, s')
  end.

(** The first layer that matches the request handles it; a layer whose
    stages all hand over passes the request on to the layers after it; an
    error handed to the framework goes to the error handler. *)
Fixpoint handle (layers : list Layer) (request : Request) (s : State)
  : Outcome * State :=
  match layers with
  | [] => (Unhandled, s)
  | layer :: rest =>
      match layerMatches layer request with
      | None => handle rest request s
      | Some ps =>
          match runChain (layerChain layer) (setParams request ps) (stResponse s) with
          | MwStop response' => (Responded, withResponse s response')
          | MwNextError e _ response' =>
              runHandler (errorHandler e) (withResponse s response')
          | MwNext request' response' =>
              match layerHandler layer with
              | Some handler => runHandler (handler request') (withResponse s response')
              | None => handle rest request' (withResponse s response')
              end
          end
      end
  end.

End RouteConfig.

(** ** Vocabulary of the statements *)

(** The positional arguments of the invocation: the resolved values of the
    pattern's parameters, then the filtered body. *)
Definition requestArguments (route : string) (request : Request) (filtered : JsValue)
  : list JsValue :=
  (map (fun argument => default JUndefined (params request !! argument))
       (argumentNamesOf route) ++ [filtered])%list.

(** The heap once the request-scoped fields are written on [inst]. *)
Definition requestHeap (inst : Ref) (request : Request) (response : Response)
           (h : Heap) : Heap :=
  setField inst "user" (SData (user request))
    (setField inst "response" (SResponse (resId response))
       (setField inst "request" (SRequest (reqId request)) h)).

Definition attached (inst : Ref) (request : Request) (s : State) : State :=
  mkState (requestHeap inst request (stResponse s) (stHeap s))
          (stResponse s) (stInvoked s).

(** [response.status(code).json(payload)]. *)
Definition answer (code payload : JsValue) (response : Response)
  : Completion unit * Response :=
  perform (CallJson payload) (perform (CallStatus code) response).2.

(** The answer of the [catch] block to the error [e]. *)
Definition answerError (e : JsValue) (response : Response)
  : Completion unit * Response :=
  answer (JNum (status (HttpError e)))
         (errorBody (JStr (message (HttpError e)))) response.

Definition errorCalls (e : JsValue) : list ResponseCall :=
  [CallStatus (JNum (status (HttpError e)));
   CallJson (errorBody (JStr (message (HttpError e))))].

(** The state once the method is invoked on [inst] with [args] and has made
    the calls [early] on the response. *)
Definition invoked (s : State) (inst : Ref) (args : list JsValue)
           (early : list ResponseCall) : State :=
  mkState (stHeap s) (performAll early (stResponse s))
          (stInvoked s ++ [(inst, args)]).

(** The end of a handler that has made its last call on the response. *)
Definition finish (last : Completion unit * Response) (s : State)
  : Result unit * State :=
  match last with
  | (Normal _, response) => (Done tt, withResponse s response)
  | (Throw e, response) => (Raised e, withResponse s response)
  end.

(** The [try] statement on a method that has handed back a result with the
    fields [code] and [payload]: the answer, and the answer of the [catch]
    block when the answer throws. *)
Definition finishResult (code payload : JsValue) (s : State) : Result unit * State :=
  match answer code payload (stResponse s) with
  | (Normal _, response) => (Done tt, withResponse s response)
  | (Throw e, response) => finish (answerError e response) s
  end.

(** A method that makes no call on the response before the dispatcher goes
    on. *)
Definition quiet (settings : Settings) (mappedFunction : ControllerMethod)
           (h : Heap) (inst : Ref) (args : list JsValue) : Prop :=
  writesUntil (resumeRank settings mappedFunction (call mappedFunction h inst args))
              (writes mappedFunction h inst args) = [].

(** A status code of the protocol, as the response contract has it. *)
Definition httpStatus (code : JsValue) (n : Z) : Prop :=
  code = JNum n /\ (100 <= n <= 999)%Z.

(** The answer transmitted for the status [n] and the payload [payload] to a
    request that is neither a HEAD request nor a conditional one. *)
Definition jsonAnswer (n : Z) (payload : JsValue) : Sent :=
  mkSent n (if noBody n then BodyEmpty else BodyJson payload).

(** A response that is still to be sent, to a request that is neither a HEAD
    request nor a conditional request whose validators match. *)
Definition plain (response : Response) : Prop :=
  sent response = None /\ forHead response = false
  /\ validatorsMatch response = false.

(** Lines 130-162: the [try] statement, on the arguments of the request. *)
Definition guarded (settings : Settings) (mappedFunction : ControllerMethod)
           (request : Request) (inst : Ref) (filtered : JsValue) : M unit :=
  tryCatch (invokeAndRespond settings mappedFunction inst
              (requestArguments (route mappedFunction) request filtered))
           respondError.


(** The request-scoped fields as a method reads them through its receiver. *)
Definition scopeSeen (h : Heap) (inst : Ref) : option Slot * option Slot * option Slot :=
  (getField h inst "request", getField h inst "response", getField h inst "user").

(** The request-scoped fields of one request. *)
Definition scopeOf (request : Request) (response : Response)
  : option Slot * option Slot * option Slot :=
  (Some (SRequest (reqId request)), Some (SResponse (resId response)),
   Some (SData (user request))).

(** One arrival at a bound method: the method, the request, its response. *)
Record Arrival : Type := mkArrival {
  aMethod : ControllerMethod;
  aRequest : Request;
  aResponse : Response
}.

(** The heap after one dispatch, and after a sequence of dispatches to the
    methods of one controller, each starting on the heap the dispatches
    before it have left. *)
Definition heapAfter (constitute : string -> Heap -> Completion Ref * Heap)
           (settings : Settings) (controllerName : string) (controller : Ref)
           (a : Arrival) (h : Heap) : Heap :=
  stHeap (dispatcher constitute settings controllerName controller
                     (aMethod a) (aRequest a) (mkState h (aResponse a) [])).2.

Definition heapAfterAll (constitute : string -> Heap -> Completion Ref * Heap)
           (settings : Settings) (controllerName : string) (controller : Ref)
           (arrivals : list Arrival) (h : Heap) : Heap :=
  foldl (fun h a => heapAfter constitute settings controllerName controller a h)
        h arrivals.

(** The object of one request: its prototype is the shared instance and its
    own properties are the request-scoped fields. *)
Definition scopeObject (controller : Ref) (request : Request) (response : Response)
  : HeapObject :=
  mkObject (Some controller)
    (<["user" := SData (user request)]>
       (<["response" := SResponse (resId response)]>
          (<["request" := SRequest (reqId request)]> ∅))).

(** A deferred computation against a delay: settled within it, settled
    strictly before it. *)
Definition settlesWithin (ms : nat) (d : Deferred) : bool :=
  match d with
  | AlreadySettled _ => true
  | SettlesAfter t _ => Nat.leb t ms
  | NeverSettles => false
  end.

Definition settlesBefore (ms : nat) (d : Deferred) : bool :=
  match d with
  | AlreadySettled _ => true
  | SettlesAfter t _ => Nat.ltb t ms
  | NeverSettles => false
  end.

Definition is2xx (code : Z) : bool := (200 <=? code)%Z && (code <? 300)%Z.

(** ** A sample configuration

    A controller with one shared instance at address 1, a provisioning route
    and a request to it, used to run the statements below on concrete data. *)

Module Sample.

Definition settings : Settings := mkSettings 3600 30 "/oauth/token".

(** An application object none of whose other members can be called. *)
Definition member : string -> string -> Completion (list (option string * string)) :=
  fun key _ => Throw (typeError ("app." ++ key ++ " is not a function")).

Definition heap : Heap := {[ 1 := mkObject None ∅ ]}.

(** The heap once the shared instance is cloned at address 2. *)
Definition cloned : Heap := <[2 := mkObject (Some 1) ∅]> heap.

(** A container that keeps one instance per name. *)
Definition singleton : string -> Heap -> Completion Ref * Heap :=
  fun _ h => (Normal 1, h).

(** A container that makes an instance at every call, and the heap once it
    has made one at address 2. *)
Definition transient : string -> Heap -> Completion Ref * Heap :=
  fun _ h => (Normal (fresh (dom h)), <[fresh (dom h) := mkObject None ∅]> h).

Definition made : Heap := <[2 := mkObject None ∅]> heap.

(** A container whose resolution throws. *)
Definition failing : string -> Heap -> Completion Ref * Heap :=
  fun name h => (Throw (mkError ("Cannot resolve " ++ name)), h).

Definition created (id : string) : JsValue :=
  JObj [("status", JNum 201); ("data", JObj [("id", JStr id)])].

Definition method (sse : JsValue)
           (run : list JsValue -> Completion FunctionResult) : ControllerMethod :=
  mkMethod JUndefined JUndefined (JStr "post") "/v1/provisioning/:coreID" sse
           (fun _ _ args => run args) (fun _ _ _ => []).

Definition request : Request :=
  mkRequest 7 "post" "/v1/provisioning/abc" {[ "coreID" := JStr "abc" ]}
            (JObj [("access_token", JStr "t0k3n"); ("publicKey", JStr "key")])
            (JStr "alice") false.

Definition response : Response := newResponse 7 JUndefined.

Definition start : State := mkState heap response [].

(** A second request, of another user, and the two arrivals. *)
Definition request2 : Request :=
  mkRequest 8 "post" "/v1/provisioning/def" {[ "coreID" := JStr "def" ]}
            (JObj [("publicKey", JStr "key2")]) (JStr "bob") false.

Definition response2 : Response := newResponse 8 JUndefined.

Definition provision : ControllerMethod :=
  method JUndefined
         (fun args => Normal (Promise (SettlesAfter 5 (Fulfilled (created "abc"))))).

Definition first : Arrival := mkArrival provision request response.

(** Stand-ins for the OAuth server, the upload parser and the path matcher
    of the framework. *)
Definition authenticate : Middleware :=
  fun request response =>
    match getProp (body request) "access_token" with
    | Normal (JStr "t0k3n") =>
        MwNext request
               (mkResponse (resId response)
                           (JObj [("token", JObj [("user", JStr "alice")])])
                           (calls response) (statusCode response) (sent response)
                           (forHead response) (validatorsMatch response))
    | _ => MwStop (answer (JNum 401) (errorBody (JStr "invalid_token")) response).2
    end.

Definition token : Middleware :=
  fun _ response =>
    MwStop (perform (CallJson (JObj [("access_token", JStr "t0k3n")])) response).2.

Definition fields : JsValue -> Middleware :=
  fun _ request response => MwNext request response.

Definition any : Middleware := fun request response => MwNext request response.

Definition matchPath : string -> string -> option (gmap string JsValue) :=
  fun pattern path =>
    if String.eqb pattern "/v1/provisioning/:coreID"
       && String.prefix "/v1/provisioning/" path
    then Some {[ "coreID" := JStr (String.substring 17 (String.length path - 17) path) ]}
    else if String.eqb pattern path then Some ∅ else None.

Definition methodsOf : Ref -> list ControllerMethod := fun _ => [provision].

(** The layers a method is bound to, the layer of the provisioning route and
    the routes of the application. *)
Definition routesOf (m : ControllerMethod) : list Layer :=
  match bindMethod singleton authenticate fields any member settings
                   "ProvisioningController" 1 m with
  | Normal layers => layers
  | Throw _ => []
  end.

Definition bound : list Layer := routesOf provision.

Definition bindings : list Layer :=
  mkLayer (Some "post") "/oauth/token" [token] None :: bound.

Definition layers : list Layer :=
  (bindings ++ [mkLayer None "*" [] (Some notFound)])%list.

(** A request to no route, and a method whose upload metadata is null. *)
Definition lost : Request :=
  mkRequest 9 "get" "/v1/nowhere" ∅ (JObj []) JUndefined false.

Definition nullUploads : ControllerMethod :=
  mkMethod JNull JUndefined (JStr "post") "/v1/upload" JUndefined
           (fun _ _ _ => Normal (Value (created "file"))) (fun _ _ _ => []).

Definition second : Arrival := mkArrival provision request2 response2.

(** The request once routed to the provisioning route, and its response once
    the stand-in authentication has accepted the token. *)
Definition matched : gmap string JsValue := {[ "coreID" := JStr "abc" ]}.

Definition routed : Request := setParams request matched.

Definition authenticated : Response :=
  newResponse 7 (JObj [("token", JObj [("user", JStr "alice")])]).

(** A request to the login route and the answer of the stand-in token
    handler. *)
Definition login : Request :=
  mkRequest 10 "post" "/oauth/token" ∅
            (JObj [("username", JStr "alice"); ("password", JStr "secret")])
            JUndefined false.

Definition tokenAnswer : Response :=
  (perform (CallJson (JObj [("access_token", JStr "t0k3n")])) response).2.

(** A route whose upload parser rejects the request, and a request to it. *)
Definition unexpectedFile : JsValue :=
  JObj [("code", JStr "LIMIT_UNEXPECTED_FILE"); ("message", JStr "Unexpected field")].

Definition rejecting : Layer :=
  mkLayer (Some "post") "/v1/upload"
          [fun request response => MwNextError unexpectedFile request response] None.

Definition upload : Request :=
  mkRequest 11 "post" "/v1/upload" ∅ (JObj []) JUndefined false.

(** An error of a controller, a method on a streaming route, settings with
    a timeout of zero, and a method that answers the request itself and
    hands back a promise that never settles. *)
Definition noKey : JsValue :=
  JObj [("status", JNum 400); ("message", JStr "No key provided")].

Definition streaming : ControllerMethod :=
  method (JBool true)
         (fun _ => Normal (Promise (SettlesAfter 5 (Fulfilled (created "abc"))))).

Definition immediate : Settings := mkSettings 3600 0 "/oauth/token".

Definition selfAnswering : ControllerMethod :=
  mkMethod JUndefined JUndefined (JStr "post") "/v1/provisioning/:coreID" JUndefined
           (fun _ _ _ => Normal (Promise NeverSettles))
           (fun _ _ _ => [(0, CallJson (JObj [("accepted", JBool true)]))]).

(** The response once the stream head is written, and the state of a request
    that reaches the dispatcher of a streaming route. *)
Definition streamHead : Response :=
  (perform (CallWriteHead 200 sseHeaders) response).2.

Definition streamStart : State := mkState heap streamHead [].

End Sample.

(** The number of colons of a pattern. *)
Fixpoint colons (s : string) : nat :=
  match s with
  | EmptyString => 0
  | String c rest => (if isColon c then 1 else 0) + colons rest
  end.

(** A string made of word characters only. *)
Definition isWord (s : string) : Prop := wordPrefix s = s.

(** A method whose verb, when it carries one, names a routing method of the
    application, as the metadata contract has it. *)
Definition routable (m : ControllerMethod) : Prop :=
  truthy (httpVerb m) = true -> toPropertyKey (httpVerb m) ∈ httpMethods.

(** A stage that leaves the user of the request as it is. *)
Definition keepsUser (stage : Middleware) : Prop :=
  forall q r q' r', stage q r = MwNext q' r' -> user q' = user q.

(** The addresses of the per-request objects that a sequence of dispatches
    against a container that hands back the shared instance makes, in the
    order of the dispatches. *)
Fixpoint instancesOf (constitute : string -> Heap -> Completion Ref * Heap)
         (settings : Settings) (controllerName : string) (controller : Ref)
         (arrivals : list Arrival) (h : Heap) : list Ref :=
  match arrivals with
  | [] => []
  | a :: rest =>
      fresh (dom h)
        :: instancesOf constitute settings controllerName controller rest
             (heapAfter constitute settings controllerName controller a h)
  end.

(** A heap without dangling prototype links. *)
Definition closedHeap (h : Heap) : Prop :=
  forall b o p, h !! b = Some o -> proto o = Some p -> p ∈ dom h.


(** What the [try] block makes of the method's outcome, up to its calls on
    the response: it goes on to answer with the [status] and the [data] of
    the result, it fails with an error, or it waits for ever. *)
Inductive Attempt : Type :=
| Answers (code payload : JsValue)
| Fails (e : JsValue)
| Waits.

Definition attemptOn (v : JsValue) : Attempt :=
  match getProp v "status", getProp v "data" with
  | Normal code, Normal payload => Answers code payload
  | Throw e, _ | _, Throw e => Fails e
  end.

Definition attempt (settings : Settings) (mappedFunction : ControllerMethod)
           (outcome : Completion FunctionResult) : Attempt :=
  match outcome with
  | Throw e => Fails e
  | Normal functionResult =>
      match hasThen functionResult with
      | Throw e => Fails e
      | Normal false =>
          match resultProp functionResult "status",
                resultProp functionResult "data" with
          | Normal code, Normal payload => Answers code payload
          | Throw e, _ | _, Throw e => Fails e
          end
      | Normal true =>
          match settlement (theRace settings mappedFunction functionResult) with
          | None => Waits
          | Some (Rejected e) => Fails e
          | Some (Fulfilled v) =>
              match nullthrows v with
              | Throw e => Fails e
              | Normal _ => attemptOn v
              end
          end
      end
  end.

(** The end of the [try] statement on an attempt, from the state [s0] that
    the invocation has left. *)
Definition conclude (a : Attempt) (s0 : State) : Result unit * State :=
  match a with
  | Answers code payload => finishResult code payload s0
  | Fails e => finish (answerError e (stResponse s0)) s0
  | Waits => (Forever, s0)
  end.
(** * Properties *)

(** ** The definitions on concrete data *)

Example argumentNames_provisioning :
  argumentNamesOf "/v1/provisioning/:coreID" = ["coreID"].
Proof. reflexivity. Qed.

Example argumentNames_two :
  argumentNamesOf "/v1/devices/:deviceID/:functionName" = ["deviceID"; "functionName"].
Proof. reflexivity. Qed.

Example argumentNames_optional :
  argumentNamesOf "/v1/events/:eventNamePrefix?*" = ["eventNamePrefix"].
Proof. reflexivity. Qed.

Example argumentNames_bare_colon : argumentNamesOf "/a/:/b" = [""].
Proof. reflexivity. Qed.

Example objectRest_token :
  objectRest "access_token"
             (JObj [("access_token", JStr "t"); ("publicKey", JStr "k")])
  = Normal (JObj [("publicKey", JStr "k")]).
Proof. reflexivity. Qed.

Example objectRest_undefined :
  objectRest "access_token" JUndefined
  = Throw (typeError "Cannot destructure property 'access_token' of undefined").
Proof. reflexivity. Qed.

Example race_pending_against_null :
  PromiseRace [Promise (SettlesAfter 0 (Fulfilled (JNum 1))); Value JNull]
  = AlreadySettled (Fulfilled JNull).
Proof. reflexivity. Qed.

Example race_settled_against_null :
  PromiseRace [Promise (AlreadySettled (Fulfilled (JNum 1))); Value JNull]
  = AlreadySettled (Fulfilled (JNum 1)).
Proof. reflexivity. Qed.

Example race_against_timer :
  PromiseRace [Promise (SettlesAfter 31 (Fulfilled (JNum 1)));
               Promise (rejectAfter 30 (mkError "timeout"))]
  = rejectAfter 30 (mkError "timeout").
Proof. reflexivity. Qed.

Example sample_request_through_the_routes :
  let result := handle Sample.matchPath Sample.layers Sample.request Sample.start in
  result.1 = Responded
  /\ calls (stResponse result.2)
     = [CallStatus (JNum 201); CallJson (JObj [("id", JStr "abc")])]
  /\ stInvoked result.2 = [(2, [JStr "abc"; JObj [("publicKey", JStr "key")]])].
Proof. vm_compute. done. Qed.

(** ** Named parameters: the scan computes what the specification words *)

Lemma append_cons (c : ascii) (s t : string) : String c s ++ t = String c (s ++ t).
Proof. reflexivity. Qed.

Lemma append_empty_l (t : string) : "" ++ t = t.
Proof. reflexivity. Qed.

Lemma append_empty_r (s : string) : s ++ "" = s.
Proof. induction s as [|c s IH]; [done |]. by rewrite append_cons, IH. Qed.

Lemma append_char_assoc (w : string) (c : ascii) (s : string) :
  (w ++ String c "") ++ s = w ++ String c s.
Proof. induction w as [|d w IH]; [done |]. by rewrite !append_cons, IH. Qed.

Lemma colon_not_word (c : ascii) : isColon c = true -> isWordChar c = false.
Proof. unfold isColon. intros H%Ascii.eqb_eq. by subst c. Qed.

Lemma matchColonWords_spec (s : string) :
  map removeFirstColon (matchColonWords s None) = namedParameters s
  /\ forall w,
      map removeFirstColon (matchColonWords s (Some (String ":" w)))
      = (w ++ wordPrefix s) :: namedParameters s.
Proof.
  induction s as [|c s [IHnone IHsome]]; simpl.
  - split; [done |]. intros w. by rewrite append_empty_r.
  - destruct (isColon c) eqn:Hc.
    + rewrite (colon_not_word c Hc). simpl. rewrite (IHsome "").
      rewrite append_empty_l.
      split; [done |]. intros w. by rewrite append_empty_r.
    + split; [done |]. intros w.
      destruct (isWordChar c) eqn:Hw.
      * rewrite append_cons, IHsome. by rewrite append_char_assoc.
      * simpl. rewrite IHnone. by rewrite append_empty_r.
Qed.

Lemma argumentNamesOf_namedParameters (route : string) :
  argumentNamesOf route = namedParameters route.
Proof. apply matchColonWords_spec. Qed.

(** The named parameters of a pattern cut at a parameter: those before it,
    the parameter, those after it. *)
Lemma wordPrefix_all (w rest : string) :
  wordPrefix w = w -> wordPrefix rest = "" -> wordPrefix (w ++ rest) = w.
Proof.
  revert rest. induction w as [|c w IH]; intros rest Hw Hr; [done |].
  rewrite append_cons. simpl in *.
  destruct (isWordChar c); [| done].
  injection Hw as Hw. by rewrite IH.
Qed.

Lemma namedParameters_word (w rest : string) :
  wordPrefix w = w -> namedParameters (w ++ rest) = namedParameters rest.
Proof.
  induction w as [|c w IH]; intros Hw; [done |].
  rewrite append_cons. simpl in *.
  destruct (isColon c) eqn:Hc.
  - rewrite (colon_not_word c Hc) in Hw. done.
  - destruct (isWordChar c); [| done]. injection Hw as Hw. by apply IH.
Qed.

Lemma namedParameters_app (before w after : string) :
  wordPrefix w = w -> wordPrefix after = "" ->
  namedParameters (before ++ String ":" (w ++ after))
  = (namedParameters before ++ w :: namedParameters after)%list.
Proof.
  intros Hw Ha. induction before as [|c b IH].
  - rewrite append_empty_l. simpl. by rewrite wordPrefix_all, namedParameters_word.
  - rewrite append_cons. simpl.
    destruct (isColon c); simpl; [| done]. f_equal; [| done].
    clear IH. induction b as [|d b IHb]; [done |].
    rewrite append_cons. simpl.
    destruct (isWordChar d) eqn:Hd; [by rewrite IHb | done].
Qed.

(** ** The steps of the dispatcher *)

Ltac run_monad :=
  unfold tryCatch, invokeAndRespond, respondResult, respondError, invoke, respond,
    await, liftC, theResponse, writeField, onHeap, attachState, resolveInstance,
    container_constitute, errorHandler, notFound, runHandler in *;
  unfold mbind, mret, M_bind, M_ret in *;
  simpl in *.

Lemma attachState_run inst request s :
  attachState inst request s = (Done tt, attached inst request s).
Proof. reflexivity. Qed.

Section Steps.

Variable constitute : string -> Heap -> Completion Ref * Heap.
Variable settings : Settings.
Variables (controllerName : string) (controller : Ref).
Variable mappedFunction : ControllerMethod.
Variable request : Request.

(** Steps 1 to 3 done, the dispatcher is the guarded invocation. *)
Lemma dispatcher_steps s inst s1 filtered :
  resolveInstance constitute controllerName controller s = (Done inst, s1) ->
  objectRest "access_token" (body request) = Normal filtered ->
  dispatcher constitute settings controllerName controller mappedFunction request s
  = guarded settings mappedFunction request inst filtered (attached inst request s1).
Proof.
  intros Hres Hbody. unfold dispatcher, guarded.
  unfold mbind at 1, M_bind. rewrite Hres.
  unfold mbind at 1, M_bind. rewrite attachState_run.
  unfold mbind at 1, M_bind. rewrite Hbody. reflexivity.
Qed.

(** A failure of the resolution, or of the body destructuring, leaves the
    dispatcher as it is thrown. *)
Lemma dispatcher_resolution_fails s e s1 :
  resolveInstance constitute controllerName controller s = (Raised e, s1) ->
  dispatcher constitute settings controllerName controller mappedFunction request s
  = (Raised e, s1).
Proof.
  intros Hres. unfold dispatcher. unfold mbind at 1, M_bind. by rewrite Hres.
Qed.

Lemma dispatcher_body_fails s inst s1 e :
  resolveInstance constitute controllerName controller s = (Done inst, s1) ->
  objectRest "access_token" (body request) = Throw e ->
  dispatcher constitute settings controllerName controller mappedFunction request s
  = (Raised e, attached inst request s1).
Proof.
  intros Hres Hbody. unfold dispatcher.
  unfold mbind at 1, M_bind. rewrite Hres.
  unfold mbind at 1, M_bind. rewrite attachState_run.
  unfold mbind at 1, M_bind. by rewrite Hbody.
Qed.

End Steps.

(** ** The race *)

Lemma race_two (a b : FunctionResult) :
  PromiseRace [a; b] = firstOf (PromiseResolve a) (PromiseResolve b).
Proof.
  unfold PromiseRace. simpl. f_equal. by destruct (PromiseResolve b).
Qed.

(** Against the timer: a computation that settles within the delay wins, one
    that settles later or never loses. *)
Lemma race_timer_in_time (d : Deferred) (ms : Z) (e : JsValue) (t : nat) :
  settleRank d = Some t -> t <= S (timerDelay ms) ->
  PromiseRace [Promise d; Promise (rejectAfter ms e)] = d.
Proof.
  intros Hd Ht. rewrite race_two. simpl. unfold firstOf. rewrite Hd. simpl.
  destruct (Nat.ltb_spec (S (timerDelay ms)) t); [lia | done].
Qed.

Lemma race_timer_late (d : Deferred) (ms : Z) (e : JsValue) :
  (forall t, settleRank d = Some t -> S (timerDelay ms) < t) ->
  PromiseRace [Promise d; Promise (rejectAfter ms e)] = rejectAfter ms e.
Proof.
  intros Hd. rewrite race_two. simpl. unfold firstOf.
  destruct (settleRank d) as [t|]; [| done]. simpl.
  specialize (Hd t eq_refl).
  destruct (Nat.ltb_spec (S (timerDelay ms)) t); [done | lia].
Qed.

(** Against a plain value: only a computation that is already settled wins. *)
Lemma race_value_pending (d : Deferred) (v : JsValue) :
  settleRank d <> Some 0 ->
  PromiseRace [Promise d; Value v] = AlreadySettled (Fulfilled v).
Proof.
  intros Hd. rewrite race_two. simpl. unfold firstOf.
  destruct (settleRank d) as [[|t]|]; done.
Qed.

Lemma race_value_settled (o : Settlement) (v : JsValue) :
  PromiseRace [Promise (AlreadySettled o); Value v] = AlreadySettled o.
Proof. by rewrite race_two. Qed.

(** ** The response *)

Lemma perform_frame (c : ResponseCall) (r : Response) :
  resId (perform c r).2 = resId r
  /\ locals_oauth (perform c r).2 = locals_oauth r
  /\ calls (perform c r).2 = (calls r ++ [c])%list
  /\ (forall x, sent r = Some x -> sent (perform c r).2 = Some x).
Proof.
  destruct c; simpl; unfold sendBody; simpl;
    repeat case_match; simpl; repeat split; intros; by simplify_eq/=.
Qed.

Lemma performAll_frame (cs : list ResponseCall) (r : Response) :
  resId (performAll cs r) = resId r
  /\ locals_oauth (performAll cs r) = locals_oauth r
  /\ calls (performAll cs r) = (calls r ++ cs)%list
  /\ (forall x, sent r = Some x -> sent (performAll cs r) = Some x).
Proof.
  revert r. induction cs as [|c cs IH]; intros r; simpl.
  - by rewrite app_nil_r.
  - destruct (IH (perform c r).2) as (Hid & Hl & Hc & Hs).
    destruct (perform_frame c r) as (Hid' & Hl' & Hc' & Hs').
    unfold performAll in *. simpl.
    rewrite Hid, Hl, Hc, Hid', Hl', Hc', <- app_assoc.
    repeat split; try done. intros x Hx. apply Hs, Hs', Hx.
Qed.

(** The answer on a response whose head is not sent: it is sent with a
    status code in range, and refused with one out of range. *)
Lemma answer_open (code payload : JsValue) (r : Response) :
  sent r = None ->
  validStatus code = true ->
  answer code payload r
  = (Normal tt,
     mkResponse (resId r) (locals_oauth r)
                (calls r ++ [CallStatus code; CallJson payload])
                code (Some (transmit r code (BodyJson payload)))
                (forHead r) (validatorsMatch r)).
Proof.
  intros Hopen Hvalid. unfold answer, perform, sendBody, send, record, setStatusCode.
  simpl. rewrite Hopen, Hvalid. simpl. by rewrite <- app_assoc.
Qed.

Lemma answer_invalid (code payload : JsValue) (r : Response) :
  sent r = None ->
  validStatus code = false ->
  answer code payload r
  = (Throw (invalidStatusError code),
     mkResponse (resId r) (locals_oauth r)
                (calls r ++ [CallStatus code; CallJson payload]) code None
                (forHead r) (validatorsMatch r)).
Proof.
  intros Hopen Hvalid. unfold answer, perform, sendBody, send, record, setStatusCode.
  simpl. rewrite Hopen, Hvalid. simpl. by rewrite <- app_assoc.
Qed.

(** The answer on a response whose head is sent throws and sends nothing. *)
Lemma answer_sent (code payload : JsValue) (r : Response) (x : Sent) :
  sent r = Some x ->
  answer code payload r
  = (Throw headersSentError,
     mkResponse (resId r) (locals_oauth r)
                (calls r ++ [CallStatus code; CallJson payload]) code (Some x)
                (forHead r) (validatorsMatch r)).
Proof.
  intros Hsent. unfold answer, perform, sendBody, send, record, setStatusCode.
  simpl. rewrite Hsent. simpl. by rewrite <- app_assoc.
Qed.

Lemma answer_frame (code payload : JsValue) (r : Response) :
  resId (answer code payload r).2 = resId r
  /\ locals_oauth (answer code payload r).2 = locals_oauth r
  /\ calls (answer code payload r).2 = (calls r ++ [CallStatus code; CallJson payload])%list
  /\ (forall x, sent r = Some x -> sent (answer code payload r).2 = Some x).
Proof.
  destruct (sent r) as [x|] eqn:Hsent.
  - rewrite (answer_sent _ _ _ _ Hsent). simpl. repeat split; try done.
  - destruct (validStatus code) eqn:Hv.
    + rewrite (answer_open _ _ _ Hsent Hv). simpl. repeat split; done.
    + rewrite (answer_invalid _ _ _ Hsent Hv). simpl. repeat split; done.
Qed.

(** The two calls of an answer, in the monad. *)
Lemma respond_answer (code payload : JsValue) (s : State) :
  (respond (CallStatus code);; respond (CallJson payload)) s
  = finish (answer code payload (stResponse s)) s.
Proof.
  unfold answer, finish. run_monad. unfold withResponse. simpl.
  by destruct (sendBody _ _) as [[[]|e] r'].
Qed.

Lemma respondError_answer (e : JsValue) (s : State) :
  respondError e s = finish (answerError e (stResponse s)) s.
Proof. unfold respondError, answerError. apply respond_answer. Qed.

Lemma finish_frame (last : Completion unit * Response) (s : State) :
  stHeap (finish last s).2 = stHeap s
  /\ stInvoked (finish last s).2 = stInvoked s
  /\ stResponse (finish last s).2 = last.2.
Proof. by destruct last as [[[]|e] r]. Qed.

(** ** The guarded invocation *)

Lemma nullthrows_same (v checked : JsValue) : nullthrows v = Normal checked -> checked = v.
Proof. destruct v; simpl; intros H; by simplify_eq. Qed.

Lemma getProp_defined (v : JsValue) (k : string) :
  v <> JUndefined -> v <> JNull -> exists x, getProp v k = Normal x.
Proof. destruct v; simpl; intros; try done; repeat case_match; eauto. Qed.

Lemma nullthrows_defined (v : JsValue) :
  nullthrows v = Normal v -> v <> JUndefined /\ v <> JNull.
Proof. by destruct v. Qed.

(** The [try] statement is decided by the outcome of the method on the
    arguments of the request: the invocation is logged, the calls that the
    method makes on the response before the dispatcher goes on are performed,
    and the attempt made of the outcome is concluded. *)
Lemma guarded_cases settings mappedFunction request inst filtered s :
  let args := requestArguments (route mappedFunction) request filtered in
  let outcome := call mappedFunction (stHeap s) inst args in
  guarded settings mappedFunction request inst filtered s
  = conclude (attempt settings mappedFunction outcome)
             (invoked s inst args
                (writesUntil (resumeRank settings mappedFunction outcome)
                             (writes mappedFunction (stHeap s) inst args))).
Proof.
  intros args outcome. unfold guarded, tryCatch, invokeAndRespond.
  fold args. unfold mbind at 1, M_bind. unfold invoke at 1. fold outcome.
  set (s0 := invoked s inst args _).
  change (mkState (stHeap s) _ (stInvoked s ++ [(inst, args)])) with s0.
  unfold attempt.
  destruct outcome as [fr|e]; simpl.
  2:{ apply respondError_answer. }
  unfold respondResult. unfold mbind at 1, M_bind.
  destruct (hasThen fr) as [[|]|e] eqn:Hthen; simpl.
  - unfold mbind at 1, M_bind. unfold await.
    destruct (settlement (theRace settings mappedFunction fr)) as [[v|e]|]; simpl.
    + unfold mbind at 1, M_bind.
      destruct (nullthrows v) as [checked|e] eqn:Hv; simpl.
      * assert (checked = v) as -> by (by apply nullthrows_same).
        destruct (nullthrows_defined v Hv) as [Hu Hn].
        destruct (getProp_defined v "status" Hu Hn) as [code Hcode].
        destruct (getProp_defined v "data" Hu Hn) as [data Hdata].
        unfold attemptOn. rewrite Hcode, Hdata.
        unfold mbind at 1, M_bind. simpl.
        unfold finishResult, answer. simpl.
        unfold mbind, M_bind, respond, liftC, withResponse. simpl.
        rewrite Hdata. simpl.
        destruct (sendBody _ _) as [[[]|e] r']; simpl; [done |].
        rewrite respondError_answer. simpl.
        by destruct (answerError e r') as [[[]|e'] r''].
      * apply respondError_answer.
    + apply respondError_answer.
    + done.
  - destruct fr as [v|d]; [| done]. simpl in Hthen |- *.
    destruct (getProp v "then") as [t|e] eqn:Ht; [| done].
    assert (v <> JUndefined /\ v <> JNull) as [Hu Hn] by (by destruct v).
    destruct (getProp_defined v "status" Hu Hn) as [code Hcode].
    destruct (getProp_defined v "data" Hu Hn) as [data Hdata].
    rewrite Hcode, Hdata.
    unfold mbind, M_bind, respond, liftC, withResponse. simpl.
    subst s0. unfold finishResult, answer, invoked, withResponse. simpl.
    destruct (sendBody _ _) as [[[]|e] r']; simpl; [done |].
    rewrite respondError_answer. simpl.
    by destruct (answerError e r') as [[[]|e'] r''].
  - apply respondError_answer.
Qed.

Lemma finishResult_frame (code payload : JsValue) (s : State) :
  stHeap (finishResult code payload s).2 = stHeap s
  /\ stInvoked (finishResult code payload s).2 = stInvoked s
  /\ resId (stResponse (finishResult code payload s).2) = resId (stResponse s)
  /\ locals_oauth (stResponse (finishResult code payload s).2)
     = locals_oauth (stResponse s).
Proof.
  unfold finishResult.
  destruct (answer_frame code payload (stResponse s)) as (Hid & Hl & _).
  destruct (answer code payload (stResponse s)) as [[[]|e] r]; simpl in *; [done |].
  destruct (finish_frame (answerError e r) s) as (-> & -> & ->).
  destruct (answer_frame (JNum (status (HttpError e)))
              (errorBody (JStr (message (HttpError e)))) r) as (Hid' & Hl' & _).
  unfold answerError. by rewrite Hid', Hl'.
Qed.

Lemma conclude_frame (a : Attempt) (s : State) :
  stHeap (conclude a s).2 = stHeap s
  /\ stInvoked (conclude a s).2 = stInvoked s
  /\ resId (stResponse (conclude a s).2) = resId (stResponse s)
  /\ locals_oauth (stResponse (conclude a s).2) = locals_oauth (stResponse s).
Proof.
  destruct a as [code payload|e|]; simpl.
  - apply finishResult_frame.
  - destruct (finish_frame (answerError e (stResponse s)) s) as (-> & -> & ->).
    destruct (answer_frame (JNum (status (HttpError e)))
                (errorBody (JStr (message (HttpError e)))) (stResponse s))
      as (Hid & Hl & _).
    by unfold answerError.
  - done.
Qed.

(** Whatever the method does, the guarded invocation keeps the heap, logs
    the one invocation and keeps the identity of the response. *)
Lemma guarded_frame settings mappedFunction request inst filtered s :
  let s' := (guarded settings mappedFunction request inst filtered s).2 in
  stHeap s' = stHeap s
  /\ stInvoked s'
     = (stInvoked s
          ++ [(inst, requestArguments (route mappedFunction) request filtered)])%list
  /\ resId (stResponse s') = resId (stResponse s)
  /\ locals_oauth (stResponse s') = locals_oauth (stResponse s).
Proof.
  intros s'. subst s'. rewrite guarded_cases.
  set (early := writesUntil _ _).
  destruct (conclude_frame
              (attempt settings mappedFunction
                 (call mappedFunction (stHeap s) inst
                    (requestArguments (route mappedFunction) request filtered)))
              (invoked s inst
                 (requestArguments (route mappedFunction) request filtered) early))
    as (-> & -> & -> & ->).
  destruct (performAll_frame early (stResponse s)) as (Hid & Hl & _).
  simpl. by rewrite Hid, Hl.
Qed.

(** ** The heap: resolution and request-scoped fields *)

Section Resolution.

Variable constitute : string -> Heap -> Completion Ref * Heap.
Variables (controllerName : string) (controller : Ref).

(** The container hands back the instance of scan time: a clone is made. *)
Lemma resolve_shared s h1 :
  constitute controllerName (stHeap s) = (Normal controller, h1) ->
  resolveInstance constitute controllerName controller s
  = (Done (fresh (dom h1)),
     mkState (<[fresh (dom h1) := mkObject (Some controller) ∅]> h1)
             (stResponse s) (stInvoked s)).
Proof.
  intros Hc. run_monad. rewrite Hc. by rewrite decide_True.
Qed.

(** The container hands back another instance: it is used as it is. *)
Lemma resolve_own s a h1 :
  constitute controllerName (stHeap s) = (Normal a, h1) ->
  a <> controller ->
  resolveInstance constitute controllerName controller s
  = (Done a, mkState h1 (stResponse s) (stInvoked s)).
Proof.
  intros Hc Hne. run_monad. rewrite Hc. by rewrite decide_False.
Qed.

Lemma resolve_throws s e h1 :
  constitute controllerName (stHeap s) = (Throw e, h1) ->
  resolveInstance constitute controllerName controller s
  = (Raised e, mkState h1 (stResponse s) (stInvoked s)).
Proof. intros Hc. run_monad. by rewrite Hc. Qed.

End Resolution.

Lemma setField_other (a b : Ref) (k : string) (v : Slot) (h : Heap) :
  a <> b -> setField a k v h !! b = h !! b.
Proof. intros Hne. unfold setField. by rewrite lookup_alter_ne. Qed.

Lemma setField_self (a : Ref) (k : string) (v : Slot) (h : Heap) (o : HeapObject) :
  h !! a = Some o ->
  setField a k v h !! a = Some (mkObject (proto o) (<[k := v]> (own o))).
Proof. intros Ho. unfold setField. by rewrite lookup_alter_eq, Ho. Qed.

Lemma setField_dom (a : Ref) (k : string) (v : Slot) (h : Heap) :
  dom (setField a k v h) = dom h.
Proof. unfold setField. apply dom_alter_L. Qed.

(** The writes of the request-scoped fields touch the instance only. *)
Lemma requestHeap_other inst request response (h : Heap) (a : Ref) :
  a <> inst -> requestHeap inst request response h !! a = h !! a.
Proof.
  intros Hne. unfold requestHeap. by rewrite !setField_other.
Qed.

Lemma requestHeap_self inst request response (h : Heap) (o : HeapObject) :
  h !! inst = Some o ->
  requestHeap inst request response h !! inst
  = Some (mkObject (proto o)
            (<["user" := SData (user request)]>
               (<["response" := SResponse (resId response)]>
                  (<["request" := SRequest (reqId request)]> (own o))))).
Proof.
  intros Ho. unfold requestHeap.
  rewrite (setField_self inst "user" _ _ _
             (setField_self inst "response" _ _ _
                (setField_self inst "request" _ _ _ Ho))).
  done.
Qed.

Lemma requestHeap_dom inst request response (h : Heap) :
  dom (requestHeap inst request response h) = dom h.
Proof. unfold requestHeap. by rewrite !setField_dom. Qed.

(** An own property is what a read of the field finds. *)
Lemma getField_own (h : Heap) (a : Ref) (o : HeapObject) (k : string) (v : Slot) :
  h !! a = Some o -> own o !! k = Some v -> getField h a k = Some v.
Proof. intros Ho Hk. unfold getField. simpl. by rewrite Ho, Hk. Qed.

(** The fields of the instance after the writes. *)
Lemma requestHeap_fields inst request response (h : Heap) :
  is_Some (h !! inst) ->
  getField (requestHeap inst request response h) inst "request"
  = Some (SRequest (reqId request))
  /\ getField (requestHeap inst request response h) inst "response"
     = Some (SResponse (resId response))
  /\ getField (requestHeap inst request response h) inst "user"
     = Some (SData (user request)).
Proof.
  intros [o Ho].
  pose proof (requestHeap_self inst request response h o Ho) as Hself.
  repeat split; (eapply getField_own; [exact Hself |]); simpl;
    by simplify_map_eq.
Qed.

(** The resolution works on the heap only. *)
Lemma resolveInstance_frame constitute controllerName controller s r s1 :
  resolveInstance constitute controllerName controller s = (r, s1) ->
  stResponse s1 = stResponse s /\ stInvoked s1 = stInvoked s.
Proof.
  run_monad.
  destruct (constitute controllerName (stHeap s)) as [[a|e] h1]; simpl.
  - case_decide; simpl; intros [= <- <-]; done.
  - intros [= <- <-]; done.
Qed.

(** The state in which the dispatcher leaves a request whose instance was
    resolved: the heap carries the request-scoped fields on the instance and
    nothing else is changed; at most one invocation is made, on the
    instance. *)
Lemma dispatcher_state constitute settings controllerName controller
      mappedFunction request s inst s1 :
  resolveInstance constitute controllerName controller s = (Done inst, s1) ->
  let s' := (dispatcher constitute settings controllerName controller
                        mappedFunction request s).2 in
  stHeap s' = requestHeap inst request (stResponse s) (stHeap s1)
  /\ (stInvoked s' = stInvoked s
      \/ exists filtered,
          objectRest "access_token" (body request) = Normal filtered
          /\ stInvoked s'
             = (stInvoked s
                  ++ [(inst, requestArguments (route mappedFunction) request filtered)])%list).
Proof.
  intros Hres.
  destruct (resolveInstance_frame _ _ _ _ _ _ Hres) as [Hr Hi].
  destruct (objectRest "access_token" (body request)) as [filtered|e] eqn:Hbody.
  - rewrite (dispatcher_steps _ _ _ _ _ _ _ _ _ _ Hres Hbody).
    destruct (guarded_frame settings mappedFunction request inst filtered
                (attached inst request s1)) as (Hh & Hinv & _).
    cbv zeta in Hh, Hinv |- *. rewrite Hh, Hinv.
    simpl. rewrite Hr, Hi. split; [done |]. right. by exists filtered.
  - rewrite (dispatcher_body_fails _ _ _ _ _ _ _ _ _ _ Hres Hbody).
    simpl. rewrite Hr, Hi. split; [done |]. by left.
Qed.


Lemma assoc_filter_eq (skip : string) (props : list (string * JsValue)) :
  assoc skip (filter (fun kv => negb (String.eqb kv.1 skip)) props) = None.
Proof.
  induction props as [|[k' v] props IH]; [done |].
  rewrite filter_cons. simpl.
  destruct (String.eqb_spec k' skip) as [-> | Hk']; simpl; [done |].
  destruct (String.eqb_spec skip k'); [congruence | exact IH].
Qed.

(** ** Positional arguments of the invocation *)




(** ** Per-request instances *)

(** One dispatch against a container that hands back the shared instance:
    the fields are written on a new object whose prototype is the shared
    instance, and every object of the heap is left as it was. *)
Lemma dispatch_shared constitute settings controllerName controller
      mappedFunction request s h1 :
  constitute controllerName (stHeap s) = (Normal controller, h1) ->
  let s' := (dispatcher constitute settings controllerName controller
                        mappedFunction request s).2 in
  let inst := fresh (dom h1) in
  (inst ∉ dom h1)
  /\ stHeap s' !! inst
     = Some (mkObject (Some controller)
               (<["user" := SData (user request)]>
                  (<["response" := SResponse (resId (stResponse s))]>
                     (<["request" := SRequest (reqId request)]> ∅))))
  /\ scopeSeen (stHeap s') inst = scopeOf request (stResponse s)
  /\ (forall a, a <> inst -> stHeap s' !! a = h1 !! a)
  /\ dom (stHeap s') = {[inst]} ∪ dom h1
  /\ (forall this args, (this, args) ∈ stInvoked s' ->
        (this, args) ∈ stInvoked s \/ this = inst).
Proof.
  intros Hc s' inst.
  pose proof (resolve_shared constitute controllerName controller s h1 Hc) as Hres.
  destruct (dispatcher_state constitute settings controllerName controller
              mappedFunction request s _ _ Hres) as [Hheap Hinv].
  fold s' in Hheap, Hinv. simpl in Hheap. fold inst in Hheap.
  assert ((<[inst := mkObject (Some controller) ∅]> h1 : Heap) !! inst
          = Some (mkObject (Some controller) ∅)) as Hnew by apply lookup_insert_eq.
  split; [apply is_fresh |].
  split; [rewrite Hheap; by rewrite (requestHeap_self _ _ _ _ _ Hnew) |].
  split.
  { rewrite Hheap. unfold scopeSeen, scopeOf.
    destruct (requestHeap_fields inst request (stResponse s) _ (mk_is_Some _ _ Hnew))
      as (-> & -> & ->). done. }
  split.
  { intros a Ha. rewrite Hheap, requestHeap_other by done.
    by rewrite lookup_insert_ne. }
  split.
  { rewrite Hheap, requestHeap_dom. by rewrite dom_insert_L. }
  intros this args Hin.
  destruct Hinv as [Hinv | (filtered & _ & Hinv)]; rewrite Hinv in Hin.
  - by left.
  - apply elem_of_app in Hin as [Hin | Hin]; [by left |].
    apply list_elem_of_singleton in Hin. right. by injection Hin.
Qed.

(** One dispatch against a container that hands back another instance than
    the shared one: that instance receives the fields, no object is made. *)
Lemma dispatch_own constitute settings controllerName controller
      mappedFunction request s a h1 :
  constitute controllerName (stHeap s) = (Normal a, h1) ->
  a <> controller ->
  let s' := (dispatcher constitute settings controllerName controller
                        mappedFunction request s).2 in
  dom (stHeap s') = dom h1
  /\ (forall b, b <> a -> stHeap s' !! b = h1 !! b)
  /\ (is_Some (h1 !! a) -> scopeSeen (stHeap s') a = scopeOf request (stResponse s))
  /\ (forall this args, (this, args) ∈ stInvoked s' ->
        (this, args) ∈ stInvoked s \/ this = a).
Proof.
  intros Hc Hne s'.
  pose proof (resolve_own constitute controllerName controller s a h1 Hc Hne) as Hres.
  destruct (dispatcher_state constitute settings controllerName controller
              mappedFunction request s _ _ Hres) as [Hheap Hinv].
  fold s' in Hheap, Hinv. simpl in Hheap.
  split; [by rewrite Hheap, requestHeap_dom |].
  split; [intros b Hb; by rewrite Hheap, requestHeap_other |].
  split.
  { intros Hlive. rewrite Hheap. unfold scopeSeen, scopeOf.
    destruct (requestHeap_fields a request (stResponse s) _ Hlive) as (-> & -> & ->).
    done. }
  intros this args Hin.
  destruct Hinv as [Hinv | (filtered & _ & Hinv)]; rewrite Hinv in Hin.
  - by left.
  - apply elem_of_app in Hin as [Hin | Hin]; [by left |].
    apply list_elem_of_singleton in Hin. right. by injection Hin.
Qed.

Lemma scopeSeen_object (h : Heap) (inst controller : Ref) request response :
  h !! inst = Some (scopeObject controller request response) ->
  scopeSeen h inst = scopeOf request response.
Proof.
  intros Ho. unfold scopeSeen, scopeOf.
  rewrite (getField_own h inst _ "request" (SRequest (reqId request)) Ho) by done.
  rewrite (getField_own h inst _ "response" (SResponse (resId response)) Ho) by done.
  by rewrite (getField_own h inst _ "user" (SData (user request)) Ho).
Qed.

Lemma heapAfter_shared constitute settings controllerName controller (a : Arrival)
      (h : Heap) :
  constitute controllerName h = (Normal controller, h) ->
  let h' := heapAfter constitute settings controllerName controller a h in
  let inst := fresh (dom h) in
  (inst ∉ dom h)
  /\ h' !! inst = Some (scopeObject controller (aRequest a) (aResponse a))
  /\ (forall b, b <> inst -> h' !! b = h !! b)
  /\ dom h' = {[inst]} ∪ dom h.
Proof.
  intros Hc h' inst.
  destruct (dispatch_shared constitute settings controllerName controller
              (aMethod a) (aRequest a) (mkState h (aResponse a) []) h Hc)
    as (Hfresh & Hobj & _ & Hframe & Hdom & _).
  done.
Qed.

(** C1. Against a container that hands back the shared instance, every
    dispatch writes the request-scoped fields on an object made for that
    request, whose prototype is the shared instance, and leaves every other
    object as it was: of two requests in flight, each has an instance of its
    own, and the fields the first one sees are still its own after the
    dispatch of the second.  Against a container that hands back another
    instance, that instance receives the fields and no object is made. *)
Theorem C1_request_scope_isolation constitute settings controllerName controller
        (first second : Arrival) (h : Heap) :
  (forall h, constitute controllerName h = (Normal controller, h)) ->
  let h1 := heapAfter constitute settings controllerName controller first h in
  let h2 := heapAfter constitute settings controllerName controller second h1 in
  let inst1 := fresh (dom h) in
  let inst2 := fresh (dom h1) in
  ((inst1 ∉ dom h) /\ (inst2 ∉ dom h1) /\ inst1 <> inst2)
  /\ (h1 !! inst1 = Some (scopeObject controller (aRequest first) (aResponse first))
      /\ h2 !! inst1 = Some (scopeObject controller (aRequest first) (aResponse first))
      /\ h2 !! inst2 = Some (scopeObject controller (aRequest second) (aResponse second)))
  /\ (scopeSeen h1 inst1 = scopeOf (aRequest first) (aResponse first)
      /\ scopeSeen h2 inst1 = scopeOf (aRequest first) (aResponse first)
      /\ scopeSeen h2 inst2 = scopeOf (aRequest second) (aResponse second))
  /\ (forall b, b ∈ dom h -> h2 !! b = h !! b)
  /\ (forall mappedFunction request s this args,
        (this, args) ∈ stInvoked (dispatcher constitute settings controllerName
                                             controller mappedFunction request s).2 ->
        (this, args) ∈ stInvoked s \/ this = fresh (dom (stHeap s)))
  /\ (forall other mappedFunction request s a hs,
        other controllerName (stHeap s) = (Normal a, hs) ->
        a <> controller ->
        let s' := (dispatcher other settings controllerName controller
                              mappedFunction request s).2 in
        dom (stHeap s') = dom hs
        /\ (forall b, b <> a -> stHeap s' !! b = hs !! b)
        /\ (is_Some (hs !! a) ->
            scopeSeen (stHeap s') a = scopeOf request (stResponse s))
        /\ (forall this args, (this, args) ∈ stInvoked s' ->
              (this, args) ∈ stInvoked s \/ this = a)).
Proof.
  intros Hsingle h1 h2 inst1 inst2.
  destruct (heapAfter_shared constitute settings controllerName controller first h
              (Hsingle h)) as (Hf1 & Ho1 & Hfr1 & Hd1).
  destruct (heapAfter_shared constitute settings controllerName controller second h1
              (Hsingle h1)) as (Hf2 & Ho2 & Hfr2 & Hd2).
  change (inst1 ∉ dom h) in Hf1. change (inst2 ∉ dom h1) in Hf2.
  change (h1 !! inst1 = Some (scopeObject controller (aRequest first) (aResponse first)))
    in Ho1.
  change (h2 !! inst2 = Some (scopeObject controller (aRequest second) (aResponse second)))
    in Ho2.
  change (forall b, b <> inst1 -> h1 !! b = h !! b) in Hfr1.
  change (forall b, b <> inst2 -> h2 !! b = h1 !! b) in Hfr2.
  change (dom h1 = {[inst1]} ∪ dom h) in Hd1.
  change (dom h2 = {[inst2]} ∪ dom h1) in Hd2.
  clearbody h2 inst2. clearbody h1 inst1.
  assert (inst1 ∈ dom h1) as Hin1
      by (rewrite Hd1; by apply elem_of_union_l, elem_of_singleton).
  assert (inst1 <> inst2) as Hne by (intros Heq; apply Hf2; by rewrite <- Heq).
  assert (h2 !! inst1 = Some (scopeObject controller (aRequest first) (aResponse first)))
    as Ho12 by (by rewrite Hfr2).
  split; [done |].
  split; [done |].
  split.
  { rewrite (scopeSeen_object h1 inst1 controller _ _ Ho1).
    rewrite (scopeSeen_object h2 inst1 controller _ _ Ho12).
    by rewrite (scopeSeen_object h2 inst2 controller _ _ Ho2). }
  split.
  { intros b Hb.
    assert (b <> inst1) as Hb1 by (intros ->; done).
    assert (b <> inst2) as Hb2.
    { intros ->. apply Hf2. rewrite Hd1. by apply elem_of_union_r. }
    rewrite Hfr2 by done. by apply Hfr1. }
  split.
  { intros mappedFunction request s.
    destruct (dispatch_shared constitute settings controllerName controller
                mappedFunction request s (stHeap s) (Hsingle (stHeap s)))
      as (_ & _ & _ & _ & _ & Hreceiver).
    exact Hreceiver. }
  intros other mappedFunction request s a hs Hc Ha.
  exact (dispatch_own other settings controllerName controller mappedFunction
           request s a hs Hc Ha).
Qed.

Lemma C1_request_scope_isolation_witness :
  let h1 := heapAfter Sample.singleton Sample.settings "ProvisioningController" 1
                      Sample.first Sample.heap in
  let h2 := heapAfter Sample.singleton Sample.settings "ProvisioningController" 1
                      Sample.second h1 in
  let own := dispatcher Sample.transient Sample.settings "ProvisioningController" 1
                        Sample.provision Sample.request Sample.start in
  scopeSeen h2 (fresh (dom Sample.heap))
  = (Some (SRequest 7), Some (SResponse 7), Some (SData (JStr "alice")))
  /\ scopeSeen h2 (fresh (dom h1))
     = (Some (SRequest 8), Some (SResponse 8), Some (SData (JStr "bob")))
  /\ dom (stHeap own.2) = dom Sample.cloned
  /\ scopeSeen (stHeap own.2) 2
     = (Some (SRequest 7), Some (SResponse 7), Some (SData (JStr "alice"))).
Proof.
  intros h1 h2 own.
  destruct (C1_request_scope_isolation Sample.singleton Sample.settings
              "ProvisioningController" 1 Sample.first Sample.second Sample.heap
              (fun h => eq_refl))
    as (_ & _ & (_ & Hfirst & Hsecond) & _ & _ & Hown).
  destruct (Hown Sample.transient Sample.provision Sample.request Sample.start 2
                 Sample.made
                 ltac:(vm_compute; reflexivity) ltac:(discriminate))
    as (Hdom & _ & Hscope & _).
  split; [exact Hfirst |]. split; [exact Hsecond |].
  split.
  - unfold own. rewrite Hdom. unfold Sample.made, Sample.cloned.
    by rewrite !dom_insert_L.
  - apply Hscope. unfold Sample.made. by rewrite lookup_insert_eq.
Defined.

(** ** The shared instance *)

(** C9. Against a container that hands back the shared instance, no dispatch
    changes the shared instance: after any sequence of dispatches to the
    controller's methods, the object at the shared instance's address, its
    own properties and its prototype link, is the one of scan time. *)
Theorem C9_shared_instance_unchanged constitute settings controllerName controller
        (arrivals : list Arrival) (h : Heap) (o : HeapObject) :
  (forall h, constitute controllerName h = (Normal controller, h)) ->
  h !! controller = Some o ->
  heapAfterAll constitute settings controllerName controller arrivals h !! controller
  = Some o.
Proof.
  intros Hsingle. revert h.
  induction arrivals as [|a arrivals IH]; intros h Ho; [done |].
  unfold heapAfterAll. simpl. apply IH.
  destruct (heapAfter_shared constitute settings controllerName controller a h
              (Hsingle h)) as (Hfresh & _ & Hframe & _).
  rewrite Hframe; [done |].
  intros ->. apply Hfresh. apply elem_of_dom. by exists o.
Qed.

Lemma C9_shared_instance_unchanged_witness :
  heapAfterAll Sample.singleton Sample.settings "ProvisioningController" 1
               [Sample.first; Sample.second; Sample.first] Sample.heap !! 1
  = Some (mkObject None ∅).
Proof.
  apply (C9_shared_instance_unchanged Sample.singleton Sample.settings
           "ProvisioningController" 1 [Sample.first; Sample.second; Sample.first]
           Sample.heap (mkObject None ∅)).
  - intros h. reflexivity.
  - reflexivity.
Defined.

(** ** Failures and the [try] block *)

(** C2. The code at failing inputs.  The [try] block opens after the
    resolution of the controller and the destructuring of the body: a request
    whose body is undefined, and a container that throws, make the dispatcher
    throw before it; the error leaves the dispatcher, nothing is written to
    the response and the method is not invoked.  On a route that streams
    server-sent events the head of the response is sent before the dispatcher
    runs: when the method throws, the answer of the [catch] block throws in
    its turn, the error leaves the dispatcher and the client is sent the
    stream head and no error.  The same throwing method on a route without
    server-sent events is answered with the status and the message of its
    error. *)
Theorem C2_failures_leave_the_dispatcher :
  let create := Sample.method JUndefined
                  (fun _ => Normal (Value (Sample.created "abc"))) in
  let bodiless := mkRequest 9 "post" "/v1/provisioning/abc" {[ "coreID" := JStr "abc" ]}
                            JUndefined JUndefined false in
  let result := dispatcher Sample.singleton Sample.settings "ProvisioningController" 1
                           create bodiless Sample.start in
  let unresolved := dispatcher Sample.failing Sample.settings "ProvisioningController" 1
                               create Sample.request Sample.start in
  let streamed :=
    handle Sample.matchPath
           (Sample.routesOf (Sample.method (JBool true) (fun _ => Throw Sample.noKey)))
           Sample.request Sample.start in
  let caught :=
    handle Sample.matchPath
           (Sample.routesOf (Sample.method JUndefined (fun _ => Throw Sample.noKey)))
           Sample.request Sample.start in
  (result.1 = Raised (typeError "Cannot destructure property 'access_token' of undefined")
   /\ calls (stResponse result.2) = []
   /\ sent (stResponse result.2) = None
   /\ stInvoked result.2 = [])
  /\ (unresolved.1 = Raised (mkError "Cannot resolve ProvisioningController")
      /\ calls (stResponse unresolved.2) = []
      /\ sent (stResponse unresolved.2) = None
      /\ stInvoked unresolved.2 = [])
  /\ (streamed.1 = Escaped headersSentError
      /\ calls (stResponse streamed.2)
         = [CallWriteHead 200 sseHeaders; CallStatus (JNum 400);
            CallJson (JObj [("error", JStr "No key provided"); ("ok", JBool false)])]
      /\ sent (stResponse streamed.2) = Some (mkSent 200 (BodyStream sseHeaders)))
  /\ (caught.1 = Responded
      /\ sent (stResponse caught.2)
         = Some (mkSent 400 (BodyJson (JObj [("error", JStr "No key provided");
                                             ("ok", JBool false)])))).
Proof. vm_compute. done. Qed.

(** ** The race against the timer *)

Lemma settlesWithin_false_rank (ms : nat) (d : Deferred) :
  settlesWithin ms d = false -> forall t, settleRank d = Some t -> S ms < t.
Proof.
  destruct d as [o|t' o|]; simpl; intros H t Ht; simplify_eq.
  apply Nat.leb_gt in H. lia.
Qed.

Lemma settlesBefore_true_rank (ms : nat) (d : Deferred) :
  settlesBefore ms d = true -> exists t, settleRank d = Some t /\ t <= S ms.
Proof.
  destruct d as [o|t' o|]; simpl; intros H; simplify_eq.
  - exists 0. split; [done | lia].
  - apply Nat.ltb_lt in H. exists (S t'). split; [done | lia].
Qed.

(** C3. The code at a failing input: a route with [serverSentEvents] set whose
    method returns a promise that is fulfilled, five milliseconds later, with
    a result of status 201.  The dispatcher does not write that result: the
    race against null is fulfilled with null at once, the null check throws,
    and the error response with status 500 is written.  The same method on a
    route without [serverSentEvents] has its result written. *)
Theorem C3_sse_pending_promise_gets_error_response :
  let streaming :=
    Sample.method (JBool true)
      (fun _ => Normal (Promise (SettlesAfter 5 (Fulfilled (Sample.created "abc"))))) in
  let result := dispatcher Sample.singleton Sample.settings "ProvisioningController" 1
                           streaming Sample.request Sample.start in
  let plain :=
    Sample.method JUndefined
      (fun _ => Normal (Promise (SettlesAfter 5 (Fulfilled (Sample.created "abc"))))) in
  let written := dispatcher Sample.singleton Sample.settings "ProvisioningController" 1
                            plain Sample.request Sample.start in
  result.1 = Done tt
  /\ calls (stResponse result.2)
     = [CallStatus (JNum 500);
        CallJson (JObj [("error", JStr "Got unexpected null or undefined");
                        ("ok", JBool false)])]
  /\ calls (stResponse written.2)
     = [CallStatus (JNum 201); CallJson (JObj [("id", JStr "abc")])].
Proof. vm_compute. done. Qed.

(** ** The dispatch of a request on a response that is still to be sent *)

Lemma wrap32_small (n : Z) : (-2147483648 <= n < 2147483648)%Z -> wrap32 n = n.
Proof. intros Hn. unfold wrap32. rewrite Z.mod_small; lia. Qed.

Lemma httpStatus_valid (code : JsValue) (n : Z) :
  httpStatus code n -> validStatus code = true /\ toInt32 code = n.
Proof.
  intros [-> Hn].
  assert (toInt32 (JNum n) = n) as Hw by (apply wrap32_small; lia).
  unfold validStatus. rewrite Hw.
  split; [| done]. apply andb_true_iff. split; apply Z.leb_le; lia.
Qed.

(** What is transmitted to a request that is neither a HEAD request nor a
    conditional one. *)
Lemma transmit_plain (r : Response) (code payload : JsValue) (n : Z) :
  forHead r = false ->
  validatorsMatch r = false ->
  httpStatus code n ->
  transmit r code (BodyJson payload) = jsonAnswer n payload.
Proof.
  intros Hhead Hfresh Hcode. destruct (httpStatus_valid code n Hcode) as [_ Hn].
  unfold transmit, jsonAnswer. by rewrite Hhead, Hfresh, Hn.
Qed.

Lemma finishResult_open (code payload : JsValue) (n : Z) (s : State) :
  plain (stResponse s) ->
  httpStatus code n ->
  finishResult code payload s
  = (Done tt,
     withResponse s
       (mkResponse (resId (stResponse s)) (locals_oauth (stResponse s))
                   (calls (stResponse s) ++ [CallStatus code; CallJson payload])
                   code (Some (jsonAnswer n payload)) false false)).
Proof.
  intros (Hopen & Hhead & Hfresh) Hcode.
  destruct (httpStatus_valid code n Hcode) as [Hvalid Hn].
  unfold finishResult. rewrite (answer_open _ _ _ Hopen Hvalid).
  by rewrite (transmit_plain _ _ _ n Hhead Hfresh Hcode), Hhead, Hfresh.
Qed.

Lemma finishError_open (e : JsValue) (s : State) :
  plain (stResponse s) ->
  (100 <= status (HttpError e) <= 999)%Z ->
  finish (answerError e (stResponse s)) s
  = (Done tt,
     withResponse s
       (mkResponse (resId (stResponse s)) (locals_oauth (stResponse s))
                   (calls (stResponse s) ++ errorCalls e)
                   (JNum (status (HttpError e)))
                   (Some (jsonAnswer (status (HttpError e))
                                     (errorBody (JStr (message (HttpError e))))))
                   false false)).
Proof.
  intros (Hopen & Hhead & Hfresh) Hcode.
  destruct (httpStatus_valid (JNum (status (HttpError e))) _ (conj eq_refl Hcode))
    as [Hvalid Hn].
  unfold answerError. rewrite (answer_open _ _ _ Hopen Hvalid).
  by rewrite (transmit_plain _ _ _ _ Hhead Hfresh (conj eq_refl Hcode)), Hhead, Hfresh.
Qed.

Section Quiet.

Variable constitute : string -> Heap -> Completion Ref * Heap.
Variable settings : Settings.
Variables (controllerName : string) (controller : Ref).
Variable mappedFunction : ControllerMethod.
Variable request : Request.
Variables (s s1 : State) (inst : Ref) (filtered : JsValue).

Let h := requestHeap inst request (stResponse s) (stHeap s1).
Let args := requestArguments (route mappedFunction) request filtered.

Hypothesis resolved :
  resolveInstance constitute controllerName controller s = (Done inst, s1).
Hypothesis destructured :
  objectRest "access_token" (body request) = Normal filtered.

(** The dispatch of a method that leaves the response alone. *)
Lemma dispatcher_quiet :
  quiet settings mappedFunction h inst args ->
  dispatcher constitute settings controllerName controller mappedFunction request s
  = conclude (attempt settings mappedFunction (call mappedFunction h inst args))
             (mkState h (stResponse s) (stInvoked s ++ [(inst, args)])).
Proof.
  intros Hquiet.
  destruct (resolveInstance_frame _ _ _ _ _ _ resolved) as [Hr Hi].
  rewrite (dispatcher_steps _ _ _ _ _ _ _ _ _ _ resolved destructured).
  rewrite guarded_cases. fold args.
  assert (stHeap (attached inst request s1) = h) as ->
      by (unfold attached, h; simpl; by rewrite Hr).
  unfold quiet in Hquiet. rewrite Hquiet.
  unfold invoked, attached. simpl. by rewrite Hr, Hi.
Qed.

(** The attempt made of a promise on a route without server-sent events. *)
Lemma attempt_timer_fires (d : Deferred) :
  truthy (serverSentEvents mappedFunction) = false ->
  settlesWithin (timerDelay (API_TIMEOUT settings)) d = false ->
  attempt settings mappedFunction (Normal (Promise d)) = Fails (mkError "timeout").
Proof.
  intros Hsse Hlate. unfold attempt, theRace, raceGuard. simpl. rewrite Hsse. simpl.
  rewrite race_timer_late; [done |]. by apply settlesWithin_false_rank.
Qed.

Lemma attempt_in_time (d : Deferred) :
  truthy (serverSentEvents mappedFunction) = false ->
  settlesBefore (timerDelay (API_TIMEOUT settings)) d = true ->
  attempt settings mappedFunction (Normal (Promise d))
  = match settlement d with
    | Some (Fulfilled v) =>
        match nullthrows v with
        | Throw e => Fails e
        | Normal _ => attemptOn v
        end
    | Some (Rejected e) => Fails e
    | None => Waits
    end.
Proof.
  intros Hsse Hbefore.
  destruct (settlesBefore_true_rank _ _ Hbefore) as (t & Ht & Hle).
  unfold attempt, theRace, raceGuard. simpl. rewrite Hsse. simpl.
  by rewrite (race_timer_in_time d _ _ t Ht Hle).
Qed.

End Quiet.

Lemma attemptOn_object (props : list (string * JsValue)) (code payload : JsValue) :
  assoc "status" props = Some code ->
  assoc "data" props = Some payload ->
  attemptOn (JObj props) = Answers code payload.
Proof. intros Hc Hd. unfold attemptOn. simpl. by rewrite Hc, Hd. Qed.

(** C4, as stated, fails.  With a configured timeout of zero the platform
    runs the timer after one millisecond: a promise fulfilled after one
    millisecond has not settled within the configured duration, and yet wins
    the race and has its result written.  And when the method has answered
    the request itself, the answer of the [catch] block to the timeout throws:
    the client is sent the method's answer and no failure response. *)
Lemma C4_counterexample :
  let punctual :=
    Sample.method JUndefined
      (fun _ => Normal (Promise (SettlesAfter 1 (Fulfilled (Sample.created "abc"))))) in
  let result := dispatcher Sample.singleton Sample.immediate "ProvisioningController" 1
                           punctual Sample.request Sample.start in
  let answered := dispatcher Sample.singleton Sample.settings "ProvisioningController" 1
                             Sample.selfAnswering Sample.request Sample.start in
  (API_TIMEOUT Sample.immediate = 0%Z
   /\ settlesWithin 0 (SettlesAfter 1 (Fulfilled (Sample.created "abc"))) = false
   /\ result.1 = Done tt
   /\ sent (stResponse result.2)
      = Some (mkSent 201 (BodyJson (JObj [("id", JStr "abc")]))))
  /\ (answered.1 = Raised headersSentError
      /\ sent (stResponse answered.2)
         = Some (mkSent 200 (BodyJson (JObj [("accepted", JBool true)])))).
Proof. vm_compute. done. Qed.

(** C4, as amended.  On a route that does not stream server-sent events, with
    a response that is still to be sent, to a request that is neither a HEAD
    request nor a conditional one, and a method that makes no call on it, the
    method's promise is raced against a timer of the delay that the platform
    applies to the configured timeout, which is the configured timeout when
    that lies between 1 and 2^31-1 milliseconds.  A promise that does not
    settle within that delay loses the race: the dispatcher answers with the
    normaliser's status for the timeout error, which is not a 2xx status, and
    a body with [ok: false].  A promise fulfilled before the timer fires with
    a result of a status of the protocol wins the race and its value provides
    the status and the body of the response (no body with a status code that
    allows none). *)
Theorem C4_timeout_race constitute settings controllerName controller
        mappedFunction request s inst s1 filtered d :
  resolveInstance constitute controllerName controller s = (Done inst, s1) ->
  objectRest "access_token" (body request) = Normal filtered ->
  truthy (serverSentEvents mappedFunction) = false ->
  call mappedFunction (requestHeap inst request (stResponse s) (stHeap s1)) inst
       (requestArguments (route mappedFunction) request filtered)
  = Normal (Promise d) ->
  plain (stResponse s) ->
  quiet settings mappedFunction
        (requestHeap inst request (stResponse s) (stHeap s1)) inst
        (requestArguments (route mappedFunction) request filtered) ->
  let result := dispatcher constitute settings controllerName controller
                           mappedFunction request s in
  let delay := timerDelay (API_TIMEOUT settings) in
  ((1 <= API_TIMEOUT settings <= 2147483647)%Z ->
   delay = Z.to_nat (API_TIMEOUT settings))
  /\ (settlesWithin delay d = false ->
      result.1 = Done tt
      /\ calls (stResponse result.2)
         = (calls (stResponse s)
              ++ [CallStatus (JNum (status (HttpError (mkError "timeout"))));
                  CallJson (JObj [("error", JStr "timeout"); ("ok", JBool false)])])%list
      /\ sent (stResponse result.2)
         = Some (mkSent (status (HttpError (mkError "timeout")))
                        (BodyJson (JObj [("error", JStr "timeout"); ("ok", JBool false)])))
      /\ is2xx (status (HttpError (mkError "timeout"))) = false)
  /\ (forall props code n data,
        settlesBefore delay d = true ->
        settlement d = Some (Fulfilled (JObj props)) ->
        assoc "status" props = Some code ->
        httpStatus code n ->
        assoc "data" props = Some data ->
        result.1 = Done tt
        /\ calls (stResponse result.2)
           = (calls (stResponse s) ++ [CallStatus code; CallJson data])%list
        /\ sent (stResponse result.2)
           = Some (mkSent n (if noBody n then BodyEmpty else BodyJson data))).
Proof.
  intros Hres Hbody Hsse Hcall Hopen Hquiet result delay.
  assert (result
          = conclude (attempt settings mappedFunction (Normal (Promise d)))
                     (mkState (requestHeap inst request (stResponse s) (stHeap s1))
                              (stResponse s)
                              (stInvoked s
                                 ++ [(inst, requestArguments (route mappedFunction)
                                                             request filtered)])))
    as Hresult.
  { subst result.
    rewrite (dispatcher_quiet _ _ _ _ _ _ _ _ _ _ Hres Hbody Hquiet).
    by rewrite Hcall. }
  split; [| split].
  - intros Hrange. unfold delay, timerDelay.
    destruct Hrange as [H1%Z.leb_le H2%Z.leb_le]. by rewrite H1, H2.
  - intros Hlate. rewrite Hresult, (attempt_timer_fires _ _ _ Hsse Hlate).
    unfold conclude. rewrite finishError_open by (simpl; try done; lia). done.
  - intros props code n data Hbefore Hv Hcode Hn Hdata.
    rewrite Hresult, (attempt_in_time _ _ _ Hsse Hbefore), Hv. simpl nullthrows.
    cbv iota. rewrite (attemptOn_object _ _ _ Hcode Hdata). unfold conclude.
    set (s0 := mkState _ _ _).
    by rewrite (finishResult_open code data n s0 Hopen Hn).
Qed.

Lemma C4_timeout_race_witness :
  let slow := Sample.method JUndefined
                (fun _ => Normal (Promise (SettlesAfter 31 (Fulfilled (Sample.created "abc"))))) in
  let result := dispatcher Sample.singleton Sample.settings "ProvisioningController" 1
                           slow Sample.request Sample.start in
  result.1 = Done tt
  /\ calls (stResponse result.2)
     = [CallStatus (JNum 500);
        CallJson (JObj [("error", JStr "timeout"); ("ok", JBool false)])]
  /\ sent (stResponse result.2)
     = Some (mkSent 500 (BodyJson (JObj [("error", JStr "timeout"); ("ok", JBool false)])))
  /\ is2xx 500 = false.
Proof.
  intros slow result.
  destruct (C4_timeout_race Sample.singleton Sample.settings
              "ProvisioningController" 1 slow Sample.request Sample.start 2
              (mkState Sample.cloned Sample.response [])
              (JObj [("publicKey", JStr "key")])
              (SettlesAfter 31 (Fulfilled (Sample.created "abc")))
              ltac:(vm_compute; reflexivity) ltac:(vm_compute; reflexivity)
              ltac:(reflexivity) ltac:(reflexivity) ltac:(repeat split)
              ltac:(reflexivity))
    as (_ & Hlate & _).
  exact (Hlate eq_refl).
Defined.

(** ** The success response *)

(** C5, as stated, fails: with a status code that allows no body the data
    is not transmitted.  A method that returns a result of status 204 has the
    response sent with status 204 and without a body. *)
Lemma C5_counterexample :
  let deleting :=
    Sample.method JUndefined
      (fun _ => Normal (Value (JObj [("status", JNum 204);
                                     ("data", JObj [("id", JStr "abc")])]))) in
  let result := dispatcher Sample.singleton Sample.settings "ProvisioningController" 1
                           deleting Sample.request Sample.start in
  result.1 = Done tt
  /\ calls (stResponse result.2)
     = [CallStatus (JNum 204); CallJson (JObj [("id", JStr "abc")])]
  /\ sent (stResponse result.2) = Some (mkSent 204 BodyEmpty).
Proof. vm_compute. done. Qed.

(** C5, as amended. A successful dispatch on a route without server-sent
    events: the response is still to be sent, to a request that is neither a
    HEAD request nor a conditional one, the method makes no call on it and
    returns an object with a [data] field and a [status] field that is a
    status of the protocol, directly or as the value of a promise that is
    fulfilled before the timer fires.  The dispatcher then sets exactly that
    status and hands exactly that data to [json], and the response is sent
    with that status and, unless the status code allows no body, with that
    data as its JSON body. *)
Theorem C5_result_round_trip constitute settings controllerName controller
        mappedFunction request s inst s1 filtered props code n data :
  resolveInstance constitute controllerName controller s = (Done inst, s1) ->
  objectRest "access_token" (body request) = Normal filtered ->
  truthy (serverSentEvents mappedFunction) = false ->
  plain (stResponse s) ->
  quiet settings mappedFunction
        (requestHeap inst request (stResponse s) (stHeap s1)) inst
        (requestArguments (route mappedFunction) request filtered) ->
  assoc "status" props = Some code ->
  httpStatus code n ->
  assoc "data" props = Some data ->
  let returned :=
    call mappedFunction (requestHeap inst request (stResponse s) (stHeap s1)) inst
         (requestArguments (route mappedFunction) request filtered) in
  (returned = Normal (Value (JObj props))
   /\ truthy (default JUndefined (assoc "then" props)) = false)
  \/ (exists d, returned = Normal (Promise d)
                /\ settlement d = Some (Fulfilled (JObj props))
                /\ settlesBefore (timerDelay (API_TIMEOUT settings)) d = true) ->
  let result := dispatcher constitute settings controllerName controller
                           mappedFunction request s in
  result.1 = Done tt
  /\ calls (stResponse result.2)
     = (calls (stResponse s) ++ [CallStatus code; CallJson data])%list
  /\ sent (stResponse result.2)
     = Some (mkSent n (if noBody n then BodyEmpty else BodyJson data)).
Proof.
  intros Hres Hbody Hsse Hopen Hquiet Hstatus Hn Hdata returned Hreturned result.
  subst result. rewrite (dispatcher_quiet _ _ _ _ _ _ _ _ _ _ Hres Hbody Hquiet).
  fold returned.
  assert (attempt settings mappedFunction returned = Answers code data) as ->.
  { destruct Hreturned as [[-> Hthen] | (d & -> & Hv & Hbefore)].
    - unfold attempt. simpl. unfold mbind, Completion_bind, mret, Completion_ret.
      rewrite Hthen. simpl. by rewrite Hstatus, Hdata.
    - rewrite (attempt_in_time _ _ _ Hsse Hbefore), Hv. simpl.
      by apply attemptOn_object. }
  unfold conclude. set (s0 := mkState _ _ _).
  by rewrite (finishResult_open code data n s0 Hopen Hn).
Qed.

Lemma C5_result_round_trip_witness :
  let create := Sample.method JUndefined (fun _ => Normal (Value (Sample.created "abc"))) in
  let result := dispatcher Sample.singleton Sample.settings "ProvisioningController" 1
                           create Sample.request Sample.start in
  result.1 = Done tt
  /\ calls (stResponse result.2)
     = [CallStatus (JNum 201); CallJson (JObj [("id", JStr "abc")])]
  /\ sent (stResponse result.2)
     = Some (mkSent 201 (BodyJson (JObj [("id", JStr "abc")]))).
Proof.
  intros create result.
  apply (C5_result_round_trip Sample.singleton Sample.settings
           "ProvisioningController" 1 create Sample.request Sample.start 2
           (mkState Sample.cloned Sample.response [])
           (JObj [("publicKey", JStr "key")])
           [("status", JNum 201); ("data", JObj [("id", JStr "abc")])]
           (JNum 201) 201 (JObj [("id", JStr "abc")])
           ltac:(vm_compute; reflexivity) ltac:(vm_compute; reflexivity)
           ltac:(reflexivity) ltac:(repeat split) ltac:(reflexivity)
           ltac:(reflexivity) ltac:(split; [reflexivity | lia]) ltac:(reflexivity)).
  left. split; reflexivity.
Defined.
(** ** Binding: the middleware chain, the catch-all, the upload factory *)

Lemma errorHandler_invoked (error : JsValue) (s : State) :
  stInvoked (runHandler (errorHandler error) s).2 = stInvoked s.
Proof.
  unfold runHandler, errorHandler. unfold mbind at 1, M_bind. unfold respond at 1. simpl.
  unfold mbind at 1, M_bind, liftC.
  destruct (getProp error "code") as [code|e]; simpl; [| done].
  unfold respond, withResponse. simpl.
  by destruct (sendBody _ _) as [[[]|e] r'].
Qed.

Section Binding.

Variable constitute : string -> Heap -> Completion Ref * Heap.
Variable methodsOf : Ref -> list ControllerMethod.
Variable oauth_authenticate : Middleware.
Variable oauth_token : Middleware.
Variable multer_fields : JsValue -> Middleware.
Variable multer_any : Middleware.
Variable app_member : string -> string -> Completion (list (option string * string)).
Variable matchPath : string -> string -> option (gmap string JsValue).
Variable settings : Settings.

Local Abbreviation bindOne :=
  (bindMethod constitute oauth_authenticate multer_fields multer_any app_member
              settings).
Local Abbreviation bindAll :=
  (bindMethods constitute oauth_authenticate multer_fields multer_any app_member
               settings).
Local Abbreviation configure :=
  (routeConfig constitute methodsOf oauth_authenticate oauth_token multer_fields
               multer_any app_member settings).
Local Abbreviation uploads := (filesMiddleware multer_fields multer_any).
Local Abbreviation serve := (handle matchPath).

(** The layers a routable method is bound to: the registrations that the
    member of the application makes, each with the chain and the dispatcher of
    the method. *)
Lemma bindMethod_layers controllerName controller mappedFunction layers :
  bindOne controllerName controller mappedFunction = Normal layers ->
  truthy (httpVerb mappedFunction) = true ->
  exists files registered,
    uploads (allowedUploads mappedFunction) = Normal files
    /\ registrations app_member (toPropertyKey (httpVerb mappedFunction))
                     (route mappedFunction) = Normal registered
    /\ layers
       = map (fun r : option string * string =>
                mkLayer r.1 r.2
                  [maybe oauth_authenticate
                         (JBool (negb (truthy (anonymous mappedFunction))));
                   maybe serverSentEventsMiddleware (serverSentEvents mappedFunction);
                   injectUserMiddleware;
                   maybe files (allowedUploads mappedFunction)]
                  (Some (dispatcher constitute settings controllerName controller
                                    mappedFunction)))
             registered.
Proof.
  unfold bindMethod. intros Hbind Hverb. rewrite Hverb in Hbind.
  simpl in Hbind. unfold mbind, Completion_bind in Hbind.
  destruct (uploads (allowedUploads mappedFunction)) as [files|e]; [| done].
  destruct (registrations _ _ _) as [registered|e]; [| done].
  exists files, registered. by injection Hbind as <-.
Qed.

Lemma bindMethod_verb controllerName controller mappedFunction layers :
  bindOne controllerName controller mappedFunction = Normal layers ->
  layers <> [] ->
  truthy (httpVerb mappedFunction) = true.
Proof.
  unfold bindMethod. intros Hbind Hne.
  destruct (truthy (httpVerb mappedFunction)); [done |].
  simpl in Hbind. by injection Hbind as <-.
Qed.

(** C7. The first stage of the chain of a bound route is the authentication
    of the OAuth server under the condition that [anonymous] is not set (the
    condition is the negation of the flag's truthiness): with [anonymous]
    true the stage hands every request straight over; with [anonymous] false
    or absent the stage is the authentication itself, and a request that the
    authentication does not hand over makes no invocation of the controller
    method. *)
Theorem C7_auth_stage controllerName controller mappedFunction layer :
  bindOne controllerName controller mappedFunction = Normal [layer] ->
  exists rest,
    layerChain layer
    = maybe oauth_authenticate (JBool (negb (truthy (anonymous mappedFunction)))) :: rest
    /\ (forall request response,
          maybe oauth_authenticate (JBool (negb (truthy (anonymous mappedFunction))))
                request response
          = if truthy (anonymous mappedFunction) then MwNext request response
            else oauth_authenticate request response)
    /\ (anonymous mappedFunction = JBool true ->
        forall request response,
          maybe oauth_authenticate (JBool (negb (truthy (anonymous mappedFunction))))
                request response
          = MwNext request response)
    /\ (anonymous mappedFunction = JBool false \/ anonymous mappedFunction = JUndefined ->
        (forall request response,
            maybe oauth_authenticate (JBool (negb (truthy (anonymous mappedFunction))))
                  request response
            = oauth_authenticate request response)
        /\ (forall request s,
              (forall ps rq rs,
                  oauth_authenticate (setParams request ps) (stResponse s) <> MwNext rq rs) ->
              stInvoked (serve [layer] request s).2 = stInvoked s)).
Proof.
  intros Hbind.
  assert (truthy (httpVerb mappedFunction) = true) as Hverb
      by (by eapply bindMethod_verb).
  destruct (bindMethod_layers _ _ _ _ Hbind Hverb)
    as (files & registered & Hfiles & Hreg & Hlayer).
  destruct registered as [|r [|r' registered]]; simplify_eq/=.
  eexists. split; [reflexivity |].
  split; [| split].
  - intros request response. unfold maybe. simpl.
    by destruct (truthy (anonymous mappedFunction)).
  - intros ->. done.
  - intros Hanon.
    assert (truthy (anonymous mappedFunction) = false) as ->
        by (by destruct Hanon as [-> | ->]).
    split; [done |].
    intros request s Hauth. simpl.
    destruct (layerMatches _ _ _) as [ps|]; [| done].
    simpl. unfold maybe at 1. simpl.
    destruct (oauth_authenticate (setParams request ps) (stResponse s))
      as [rq rs | e rq rs | rs] eqn:Hresult.
    + by destruct (Hauth ps rq rs).
    + by rewrite errorHandler_invoked.
    + done.
Qed.

(** The routes of the configuration: the bindings, then the catch-all. *)
Lemma routeConfig_layers controllers h layers h1 :
  configure controllers h = (Normal layers, h1) ->
  exists bound,
    layers = ((mkLayer (Some "post") (LOGIN_ROUTE settings) [oauth_token] None :: bound)
                ++ [mkLayer None "*" [] (Some notFound)])%list.
Proof.
  unfold routeConfig. intros Hconf.
  destruct (constitute "UserRepository" h) as [[r|e] h0]; [| done].
  destruct (bindControllers _ _ _ _ _ _ _ _ h0) as [[bound|e] h2]; [| done].
  exists bound. by injection Hconf as <- _.
Qed.

(** Layers that do not match the request are passed over. *)
Lemma handle_unmatched (bindings rest : list Layer) request s :
  Forall (fun layer => layerMatches matchPath layer request = None) bindings ->
  serve (bindings ++ rest)%list request s = serve rest request s.
Proof.
  induction 1 as [|layer bindings Hlayer _ IH]; [done |].
  simpl. by rewrite Hlayer.
Qed.

(** C8, as stated, fails: the answer of the catch-all has a body.  The
    handler calls [sendStatus(404)], for which the framework sends the status
    message of the code, [Not Found], as the body. *)
Lemma C8_counterexample :
  let result := handle Sample.matchPath Sample.layers Sample.lost Sample.start in
  result.1 = Responded
  /\ sent (stResponse result.2) = Some (mkSent 404 (BodyStatusMessage 404))
  /\ statusMessage 404 = Some "Not Found"
  /\ "Not Found" <> "".
Proof. vm_compute. done. Qed.

(** C8, as amended. A request that matches none of the bindings registered
    before the catch-all is answered by the catch-all: the one call made on
    the response, which is still to be sent, is [sendStatus(404)]; the
    response is sent with status 404 and the status message of 404,
    [Not Found], as its body, or without a body when the request is a HEAD
    request; no controller method is invoked. *)
Theorem C8_unmatched_not_found controllers h layers h1 request s :
  configure controllers h = (Normal layers, h1) ->
  exists bindings,
    layers = (bindings ++ [mkLayer None "*" [] (Some notFound)])%list
    /\ (Forall (fun layer => layerMatches matchPath layer request = None) bindings ->
        sent (stResponse s) = None ->
        let result := serve layers request s in
        result.1 = Responded
        /\ calls (stResponse result.2) = (calls (stResponse s) ++ [CallSendStatus 404])%list
        /\ sent (stResponse result.2)
           = Some (mkSent 404 (if forHead (stResponse s) then BodyEmpty
                               else BodyStatusMessage 404))
        /\ statusMessage 404 = Some "Not Found"
        /\ stHeap result.2 = stHeap s
        /\ stInvoked result.2 = stInvoked s).
Proof.
  intros Hconf.
  destruct (routeConfig_layers _ _ _ _ Hconf) as (bound & ->).
  eexists. split; [reflexivity |].
  intros Hnone Hopen result. subst result.
  rewrite (handle_unmatched _ _ _ _ Hnone). simpl.
  unfold runHandler, notFound, respond, perform, sendBody. simpl. rewrite Hopen.
  simpl. unfold transmit. simpl.
  by destruct (validatorsMatch (stResponse s)), (forHead (stResponse s)).
Qed.

(** The upload middleware factory on null, on undefined and on an array. *)
Lemma filesMiddleware_null :
  uploads JNull = Throw (mkError "Got unexpected null or undefined").
Proof. reflexivity. Qed.

Lemma filesMiddleware_undefined : uploads JUndefined = Normal multer_any.
Proof. reflexivity. Qed.

Lemma filesMiddleware_array (items : list JsValue) :
  uploads (JArr items)
  = Normal (if items is [] then multer_any else multer_fields (JArr items)).
Proof. by destruct items. Qed.

(** The scan stops at the first method whose binding throws. *)
Lemma bindMethods_throws controllerName controller before mappedFunction after e :
  Forall (fun m => exists bound, bindOne controllerName controller m = Normal bound)
         before ->
  bindOne controllerName controller mappedFunction = Throw e ->
  bindAll controllerName controller (before ++ mappedFunction :: after)%list = Throw e.
Proof.
  intros Hbefore Hthrow.
  induction Hbefore as [|m before [bound Hm] _ IH]; simpl.
  - unfold mbind, Completion_bind. by rewrite Hthrow.
  - unfold mbind, Completion_bind in *. by rewrite Hm, IH.
Qed.

(** C10. For a method that carries a verb, the upload middleware is built
    when the route is bound, whatever the condition of the upload stage.
    With [allowedUploads] null the null check of the factory throws: the
    binding of the method throws, and with it the scan of the controller and
    the route configuration, although the upload stage of that route, whose
    condition is null, would hand every request over.  With [allowedUploads]
    undefined or an array, and a verb that names a routing method of the
    application, the factory returns a parser and the route is bound. *)
Theorem C10_null_uploads_throw_at_startup controllerName controller mappedFunction :
  truthy (httpVerb mappedFunction) = true ->
  (allowedUploads mappedFunction = JNull ->
   bindOne controllerName controller mappedFunction
   = Throw (mkError "Got unexpected null or undefined")
   /\ (forall parser request response,
         maybe parser (allowedUploads mappedFunction) request response
         = MwNext request response)
   /\ (forall controllers h r h0 h1 before after,
         constitute "UserRepository" h = (Normal r, h0) ->
         constitute controllerName h0 = (Normal controller, h1) ->
         methodsOf controller = (before ++ mappedFunction :: after)%list ->
         Forall (fun m => exists bound, bindOne controllerName controller m = Normal bound)
                before ->
         configure (controllerName :: controllers) h
         = (Throw (mkError "Got unexpected null or undefined"), h1)))
  /\ (toPropertyKey (httpVerb mappedFunction) ∈ httpMethods ->
        allowedUploads mappedFunction = JUndefined ->
        exists layer,
        bindOne controllerName controller mappedFunction = Normal [layer]
        /\ layerChain layer !! 3 = Some (maybe multer_any JUndefined)
        /\ (forall request response,
              maybe multer_any JUndefined request response = MwNext request response))
  /\ (forall items,
        toPropertyKey (httpVerb mappedFunction) ∈ httpMethods ->
        allowedUploads mappedFunction = JArr items ->
        exists layer,
          bindOne controllerName controller mappedFunction = Normal [layer]
          /\ layerChain layer !! 3
             = Some (maybe (if items is [] then multer_any else multer_fields (JArr items))
                           (JArr items))
          /\ (forall request response,
                maybe (if items is [] then multer_any else multer_fields (JArr items))
                      (JArr items) request response
                = (if items is [] then multer_any else multer_fields (JArr items))
                    request response)).
Proof.
  intros Hverb.
  split; [| split].
  - intros Hnull.
    assert (bindOne controllerName controller mappedFunction
            = Throw (mkError "Got unexpected null or undefined")) as Hthrow.
    { unfold bindMethod. rewrite Hverb. simpl.
      unfold mbind, Completion_bind. by rewrite Hnull, filesMiddleware_null. }
    split; [exact Hthrow |]. split.
    + intros parser request response. by rewrite Hnull.
    + intros controllers h r h0 h1 before after Hrepo Hctrl Hmethods Hbefore.
      unfold routeConfig. rewrite Hrepo. simpl. rewrite Hctrl, Hmethods.
      by rewrite (bindMethods_throws _ _ _ _ _ _ Hbefore Hthrow).
  - intros Hv Hundef. eexists. split.
    { unfold bindMethod. rewrite Hverb. simpl.
      unfold mbind, Completion_bind. rewrite Hundef, filesMiddleware_undefined.
      unfold registrations. rewrite decide_True by done. reflexivity. }
    split; [simpl; by rewrite Hundef | done].
  - intros items Hv Harr. eexists. split.
    { unfold bindMethod. rewrite Hverb. simpl.
      unfold mbind, Completion_bind. rewrite Harr, filesMiddleware_array.
      unfold registrations. rewrite decide_True by done. reflexivity. }
    split; [simpl; by rewrite Harr | done].
Qed.


End Binding.

Lemma C7_auth_stage_witness :
  stInvoked (handle Sample.matchPath Sample.bound Sample.request2 Sample.start).2 = [].
Proof.
  destruct (C7_auth_stage Sample.singleton Sample.authenticate Sample.fields Sample.any
              Sample.member Sample.matchPath Sample.settings "ProvisioningController" 1
              Sample.provision _ eq_refl) as (rest & _ & _ & _ & Hauth).
  destruct (Hauth (or_intror eq_refl)) as [_ Hnever].
  apply (Hnever Sample.request2 Sample.start).
  intros ps rq rs. discriminate.
Defined.

Lemma C8_unmatched_not_found_witness :
  let result := handle Sample.matchPath Sample.layers Sample.lost Sample.start in
  result.1 = Responded
  /\ calls (stResponse result.2) = [CallSendStatus 404]
  /\ sent (stResponse result.2) = Some (mkSent 404 (BodyStatusMessage 404))
  /\ statusMessage 404 = Some "Not Found".
Proof.
  destruct (C8_unmatched_not_found Sample.singleton Sample.methodsOf
              Sample.authenticate Sample.token Sample.fields Sample.any Sample.member
              Sample.matchPath Sample.settings ["ProvisioningController"] Sample.heap
              Sample.layers Sample.heap Sample.lost Sample.start eq_refl)
    as (bindings & Hlayers & Hnone).
  assert (Forall (fun layer => layerMatches Sample.matchPath layer Sample.lost = None)
                 bindings) as Hunmatched.
  { unfold Sample.layers in Hlayers.
    apply app_inj_tail in Hlayers as [<- _].
    repeat constructor. }
  destruct (Hnone Hunmatched eq_refl) as (Hdone & Hcalls & Hsent & Hmessage & _).
  intros result. repeat split; assumption.
Defined.

Lemma C10_null_uploads_throw_at_startup_witness :
  bindMethod Sample.singleton Sample.authenticate Sample.fields Sample.any
             Sample.member Sample.settings "UploadController" 1 Sample.nullUploads
  = Throw (mkError "Got unexpected null or undefined")
  /\ routeConfig Sample.singleton (fun _ => [Sample.provision; Sample.nullUploads])
                 Sample.authenticate Sample.token Sample.fields Sample.any
                 Sample.member Sample.settings ["UploadController"] Sample.heap
     = (Throw (mkError "Got unexpected null or undefined"), Sample.heap).
Proof.
  destruct (C10_null_uploads_throw_at_startup Sample.singleton
              (fun _ => [Sample.provision; Sample.nullUploads])
              Sample.authenticate Sample.token Sample.fields Sample.any
              Sample.member Sample.settings "UploadController" 1 Sample.nullUploads
              eq_refl)
    as [Hnull _].
  destruct (Hnull eq_refl) as (Hbind & _ & Hstartup).
  split; [exact Hbind |].
  apply (Hstartup [] Sample.heap 1 Sample.heap Sample.heap [Sample.provision] []);
    [reflexivity | reflexivity | reflexivity |].
  repeat constructor. eexists. reflexivity.
Defined.

(** * Further properties of the module *)

(** ** The user-injection middleware (lines 28-37) *)

(** The user-injection stage never ends the chain and never hands an error
    over: it hands over the response as it received it and a request that
    differs from the one it received in its [user] at most.  Without OAuth
    information on the response the request is handed over unchanged; with
    it, the user becomes the user of the token, and a missing token makes the
    user undefined. *)
Theorem injectUser_hands_over (request : Request) (response : Response) :
  exists u,
    injectUserMiddleware request response
    = MwNext (setUser request u) response
    /\ (truthy (locals_oauth response) = false -> u = user request)
    /\ (forall props tprops,
          locals_oauth response = JObj props ->
          assoc "token" props = Some (JObj tprops) ->
          u = default JUndefined (assoc "user" tprops))
    /\ (forall props,
          locals_oauth response = JObj props ->
          assoc "token" props = None ->
          u = JUndefined).
Proof.
  unfold injectUserMiddleware.
  destruct (truthy (locals_oauth response)) eqn:Hoauth.
  - destruct (locals_oauth response) as [| |b|n|str|items|props] eqn:Hlocals;
      try discriminate Hoauth; simpl.
    + eexists. split; [reflexivity |]. repeat split; intros; discriminate.
    + eexists. split; [reflexivity |]. repeat split; intros; discriminate.
    + destruct (String.eqb "token" "length") eqn:Hk; [discriminate Hk |].
      unfold andProp.
      destruct (truthy (default JUndefined (assoc "token" (indexedProps (chars str)))))
        eqn:Htoken.
      * destruct (default JUndefined (assoc "token" (indexedProps (chars str))))
          as [| |b|n|str'|items|props]; try discriminate Htoken; simpl;
          repeat case_match;
          (eexists; split; [reflexivity |]; repeat split; intros; discriminate).
      * eexists. split; [reflexivity |]. repeat split; intros; discriminate.
    + destruct (String.eqb "token" "length") eqn:Hk; [discriminate Hk |].
      unfold andProp.
      destruct (truthy (default JUndefined (assoc "token" (indexedProps items))))
        eqn:Htoken.
      * destruct (default JUndefined (assoc "token" (indexedProps items)))
          as [| |b|n|str'|items'|props]; try discriminate Htoken; simpl;
          repeat case_match;
          (eexists; split; [reflexivity |]; repeat split; intros; discriminate).
      * eexists. split; [reflexivity |]. repeat split; intros; discriminate.
    + unfold andProp.
      destruct (assoc "token" props) as [token|] eqn:Htok; simpl.
      * destruct (truthy token) eqn:Htoken.
        -- destruct token as [| |b|n|str'|items'|tprops]; try discriminate Htoken; simpl;
             repeat case_match;
             (eexists; split; [reflexivity |];
              split; [intros; discriminate |];
              split; [intros ? ? [= <-] ?; simplify_eq; done
                     | intros ? [= <-] ?; simplify_eq]).
        -- eexists. split; [reflexivity |].
           split; [intros; discriminate |].
           split; [intros ? ? [= <-] ?; simplify_eq; discriminate Htoken
                  | intros ? [= <-] ?; simplify_eq].
      * eexists. split; [reflexivity |].
        split; [intros; discriminate |].
        split; [intros ? ? [= <-] ?; simplify_eq | done].
  - exists (user request). split; [by destruct request |]. split; [done |].
    split.
    + intros props tprops Hl. rewrite Hl in Hoauth. discriminate.
    + intros props Hl. rewrite Hl in Hoauth. discriminate.
Qed.

(** ** The argument names of a pattern (lines 103-105) *)

Lemma wordPrefix_isWord (s : string) : isWord (wordPrefix s).
Proof.
  unfold isWord. induction s as [|c s IH]; simpl; [done |].
  destruct (isWordChar c) eqn:Hc; simpl; [| done]. by rewrite Hc, IH.
Qed.

Lemma namedParameters_words (pattern : string) :
  Forall isWord (namedParameters pattern).
Proof.
  induction pattern as [|c s IH]; simpl; [constructor |].
  destruct (isColon c); [| done]. constructor; [apply wordPrefix_isWord | done].
Qed.

Lemma namedParameters_length (pattern : string) :
  length (namedParameters pattern) = colons pattern.
Proof.
  induction pattern as [|c s IH]; simpl; [done |].
  destruct (isColon c); simpl; by rewrite IH.
Qed.

(** The dispatcher extracts one argument name for every colon of the pattern,
    and every name consists of word characters only (it holds no colon, no
    slash, no question mark); the method therefore receives as many
    positional values as the pattern has colons, before the body. *)
Theorem argumentNames_one_word_per_colon (route : string) (request : Request)
        (filtered : JsValue) :
  Forall isWord (argumentNamesOf route)
  /\ length (argumentNamesOf route) = colons route
  /\ length (requestArguments route request filtered) = S (colons route)
  /\ last (requestArguments route request filtered) = Some filtered.
Proof.
  rewrite argumentNamesOf_namedParameters.
  split; [apply namedParameters_words |].
  split; [apply namedParameters_length |].
  unfold requestArguments. rewrite argumentNamesOf_namedParameters.
  split.
  - rewrite length_app, length_map, namedParameters_length. simpl. lia.
  - apply last_snoc.
Qed.

(** A pattern cut at one of its parameters: the argument names are those of
    the part before the parameter, the parameter's name, and those of the
    part after it, in this order. *)
Theorem argumentNames_in_pattern_order (before name after : string) :
  isWord name ->
  wordPrefix after = "" ->
  argumentNamesOf (before ++ String ":" (name ++ after))
  = (argumentNamesOf before ++ name :: argumentNamesOf after)%list.
Proof.
  intros Hname Hafter. rewrite !argumentNamesOf_namedParameters.
  by apply namedParameters_app.
Qed.

Lemma argumentNames_in_pattern_order_witness :
  argumentNamesOf ("/v1/devices/:deviceID/" ++ String ":" ("functionName" ++ "/call"))
  = (argumentNamesOf "/v1/devices/:deviceID/" ++ "functionName" :: argumentNamesOf "/call")%list.
Proof.
  apply (argumentNames_in_pattern_order "/v1/devices/:deviceID/" "functionName" "/call").
  - reflexivity.
  - reflexivity.
Defined.

(** ** The answers of the dispatcher (lines 130-162) *)

(** The second entry of the race, the timer or null, always settles: so does
    the race. *)
Lemma race_guard_settles settings mappedFunction (functionResult : FunctionResult) :
  is_Some (settlement (theRace settings mappedFunction functionResult)).
Proof.
  unfold theRace. rewrite race_two. unfold raceGuard, firstOf.
  destruct (truthy (serverSentEvents mappedFunction)); simpl;
    destruct (PromiseResolve functionResult) as [o|ms o|]; simpl; try done;
    by case_match.
Qed.

Lemma attempt_settles settings mappedFunction outcome :
  attempt settings mappedFunction outcome <> Waits.
Proof.
  unfold attempt. destruct outcome as [fr|e]; [| done].
  destruct (hasThen fr) as [[|]|e]; [| | done].
  - destruct (race_guard_settles settings mappedFunction fr) as [[v|e] ->]; [| done].
    destruct (nullthrows v); [| done]. unfold attemptOn. by repeat case_match.
  - by repeat case_match.
Qed.

Lemma last_pair {A} (l : list A) (x y : A) : last (l ++ [x; y])%list = Some y.
Proof.
  replace (l ++ [x; y])%list with ((l ++ [x]) ++ [y])%list by (by rewrite <- app_assoc).
  apply last_snoc.
Qed.

(** The three ways an answer goes. *)
Lemma answer_outcome (code payload : JsValue) (r : Response) :
  let after := answer code payload r in
  calls after.2 = (calls r ++ [CallStatus code; CallJson payload])%list
  /\ ((sent r = None /\ after.1 = Normal tt
       /\ sent after.2 = Some (transmit r code (BodyJson payload)))
      \/ (sent r = None /\ after.1 = Throw (invalidStatusError code)
          /\ sent after.2 = None)
      \/ (exists x, sent r = Some x /\ after.1 = Throw headersSentError
                    /\ sent after.2 = Some x)).
Proof.
  intros after. subst after.
  destruct (sent r) as [x|] eqn:Hsent.
  - rewrite (answer_sent _ _ _ _ Hsent). simpl. split; [done |].
    right. right. by exists x.
  - destruct (validStatus code) eqn:Hv.
    + rewrite (answer_open _ _ _ Hsent Hv). simpl. split; [done |]. by left.
    + rewrite (answer_invalid _ _ _ Hsent Hv). simpl. split; [done |]. right. by left.
Qed.

(** The end of a handler on its last answer. *)
Lemma finish_answer (code payload : JsValue) (s : State) :
  let result := finish (answer code payload (stResponse s)) s in
  calls (stResponse result.2)
  = (calls (stResponse s) ++ [CallStatus code; CallJson payload])%list
  /\ (result.1 = Done tt ->
      sent (stResponse s) = None
      /\ sent (stResponse result.2)
         = Some (transmit (stResponse s) code (BodyJson payload)))
  /\ (forall e, result.1 = Raised e ->
        e = headersSentError \/ e = invalidStatusError code)
  /\ result.1 <> Forever
  /\ (forall x, sent (stResponse s) = Some x ->
        result.1 = Raised headersSentError /\ sent (stResponse result.2) = Some x).
Proof.
  intros result. subst result.
  destruct (answer_outcome code payload (stResponse s)) as [Hcalls Hcases].
  destruct (finish_frame (answer code payload (stResponse s)) s) as (_ & _ & ->).
  split; [exact Hcalls |].
  unfold finish.
  destruct Hcases as [(Hopen & H1 & H2) | [(Hopen & H1 & H2) | (x & Hsent & H1 & H2)]];
    destruct (answer code payload (stResponse s)) as [c r']; simpl in *; subst c;
    simpl; repeat split; try done; intros; simplify_eq; eauto.
Qed.

(** Once the instance is resolved and the body destructured, whatever the
    method returns and whatever calls it makes on the response, the
    dispatcher invokes the method exactly once and never waits for ever; after
    the calls of the method it makes one answer on the response (a [status]
    and a [json]), or two when the first one throws, and nothing else.  When
    it ends normally, the response has been sent by its last [json];
    otherwise the error that leaves it is the one the response has thrown:
    the head was sent already, or the status code is out of range. *)
Theorem dispatcher_answers_once_or_twice constitute settings controllerName controller
        mappedFunction request s inst s1 filtered :
  resolveInstance constitute controllerName controller s = (Done inst, s1) ->
  objectRest "access_token" (body request) = Normal filtered ->
  let result := dispatcher constitute settings controllerName controller
                           mappedFunction request s in
  let args := requestArguments (route mappedFunction) request filtered in
  let h := requestHeap inst request (stResponse s) (stHeap s1) in
  let early := writesUntil (resumeRank settings mappedFunction
                                       (call mappedFunction h inst args))
                           (writes mappedFunction h inst args) in
  stInvoked result.2 = (stInvoked s ++ [(inst, args)])%list
  /\ result.1 <> Forever
  /\ (exists code payload,
        calls (stResponse result.2)
        = (calls (stResponse s) ++ early ++ [CallStatus code; CallJson payload])%list
        \/ exists e,
            calls (stResponse result.2)
            = (calls (stResponse s) ++ early
                 ++ [CallStatus code; CallJson payload] ++ errorCalls e)%list)
  /\ (result.1 = Done tt ->
      exists payload,
        is_Some (sent (stResponse result.2))
        /\ last (calls (stResponse result.2)) = Some (CallJson payload))
  /\ (forall e, result.1 = Raised e ->
        e = headersSentError \/ exists code, e = invalidStatusError code).
Proof.
  intros Hres Hbody result args h early.
  destruct (resolveInstance_frame _ _ _ _ _ _ Hres) as [Hr Hi].
  assert (result
          = conclude (attempt settings mappedFunction (call mappedFunction h inst args))
                     (invoked (attached inst request s1) inst args early)) as Hresult.
  { subst result. rewrite (dispatcher_steps _ _ _ _ _ _ _ _ _ _ Hres Hbody).
    rewrite guarded_cases. fold args.
    assert (stHeap (attached inst request s1) = h) as ->
        by (unfold attached, h; simpl; by rewrite Hr).
    done. }
  set (s0 := invoked (attached inst request s1) inst args early) in *.
  assert (calls (stResponse s0) = (calls (stResponse s) ++ early)%list) as Hearly.
  { unfold s0. simpl.
    destruct (performAll_frame early (stResponse s1)) as (_ & _ & -> & _).
    by rewrite Hr. }
  split.
  { rewrite Hresult.
    destruct (conclude_frame
                (attempt settings mappedFunction (call mappedFunction h inst args)) s0)
      as (_ & -> & _).
    unfold s0. simpl. by rewrite Hi. }
  rewrite Hresult. clear Hresult. clearbody s0.
  pose proof (attempt_settles settings mappedFunction (call mappedFunction h inst args))
    as Hsettles.
  destruct (attempt settings mappedFunction (call mappedFunction h inst args))
    as [code payload|e|]; [| | done]; unfold conclude.
  - unfold finishResult.
    destruct (answer_outcome code payload (stResponse s0)) as [Hcalls Hcases].
    destruct (answer code payload (stResponse s0)) as [[[]|thrown] r1] eqn:Hanswer;
      simpl in Hcalls.
    + simpl. split; [done |]. split.
      { exists code, payload. left. by rewrite Hcalls, Hearly, <- app_assoc. }
      split; [| done]. intros _.
      destruct Hcases as [(_ & _ & Hsent) | [(_ & Hthrow & _) | (x & _ & Hthrow & _)]];
        simpl in *; simplify_eq.
      exists payload. split; [by rewrite Hsent |].
      rewrite Hcalls. apply last_pair.
    + destruct (finish_answer (JNum (status (HttpError thrown)))
                  (errorBody (JStr (message (HttpError thrown))))
                  (withResponse s0 r1)) as (Hc2 & Hdone & Hraised & Hnever & _).
      assert (finish (answerError thrown r1) s0
              = finish (answer (JNum (status (HttpError thrown)))
                               (errorBody (JStr (message (HttpError thrown))))
                               (stResponse (withResponse s0 r1)))
                       (withResponse s0 r1)) as ->.
      { unfold answerError. simpl. by destruct (answer _ _ r1) as [[[]|?] ?]. }
      split; [exact Hnever |]. split.
      { exists code, payload. right. exists thrown.
        rewrite Hc2. simpl. rewrite Hcalls, Hearly. unfold errorCalls.
        by rewrite <- !app_assoc. }
      split.
      * intros Hd. destruct (Hdone Hd) as [_ Hn]. eexists. split; [by rewrite Hn |].
        rewrite Hc2. apply last_pair.
      * intros e He. destruct (Hraised e He) as [-> | ->]; [by left | right; eauto].
  - destruct (finish_answer (JNum (status (HttpError e)))
                (errorBody (JStr (message (HttpError e)))) s0)
      as (Hc2 & Hdone & Hraised & Hnever & _).
    unfold answerError.
    split; [exact Hnever |]. split.
    { eexists _, _. left. by rewrite Hc2, Hearly, <- app_assoc. }
    split.
    + intros Hd. destruct (Hdone Hd) as [_ Hn]. eexists. split; [by rewrite Hn |].
      rewrite Hc2. apply last_pair.
    + intros e' He. destruct (Hraised e' He) as [-> | ->]; [by left | right; eauto].
Qed.

Lemma dispatcher_answers_once_or_twice_witness :
  let result := dispatcher Sample.singleton Sample.settings "ProvisioningController" 1
                           Sample.selfAnswering Sample.request Sample.start in
  stInvoked result.2 = [(2, [JStr "abc"; JObj [("publicKey", JStr "key")]])]
  /\ result.1 <> Forever
  /\ (forall e, result.1 = Raised e ->
        e = headersSentError \/ exists code, e = invalidStatusError code).
Proof.
  intros result.
  destruct (dispatcher_answers_once_or_twice Sample.singleton Sample.settings
              "ProvisioningController" 1 Sample.selfAnswering Sample.request
              Sample.start 2 (mkState Sample.cloned Sample.response [])
              (JObj [("publicKey", JStr "key")])
              ltac:(vm_compute; reflexivity) ltac:(vm_compute; reflexivity))
    as (Hinvoked & Hnever & _ & _ & Hraised).
  split; [exact Hinvoked |]. split; [exact Hnever | exact Hraised].
Defined.

(** On a route without server-sent events, with a response that is still to
    be sent, to a request that is neither a HEAD request nor a conditional
    one, and a method that makes no call on it, a promise that is rejected
    before the timer fires wins the race: the response is sent with the
    status and the message of that rejection (without a body when the status
    code allows none), not with those of the timeout. *)
Theorem rejection_before_timeout_is_reported constitute settings controllerName
        controller mappedFunction request s inst s1 filtered d e :
  resolveInstance constitute controllerName controller s = (Done inst, s1) ->
  objectRest "access_token" (body request) = Normal filtered ->
  truthy (serverSentEvents mappedFunction) = false ->
  call mappedFunction (requestHeap inst request (stResponse s) (stHeap s1)) inst
       (requestArguments (route mappedFunction) request filtered)
  = Normal (Promise d) ->
  plain (stResponse s) ->
  quiet settings mappedFunction
        (requestHeap inst request (stResponse s) (stHeap s1)) inst
        (requestArguments (route mappedFunction) request filtered) ->
  settlesBefore (timerDelay (API_TIMEOUT settings)) d = true ->
  settlement d = Some (Rejected e) ->
  (100 <= status (HttpError e) <= 999)%Z ->
  let result := dispatcher constitute settings controllerName controller
                           mappedFunction request s in
  result.1 = Done tt
  /\ calls (stResponse result.2)
     = (calls (stResponse s)
          ++ [CallStatus (JNum (status (HttpError e)));
              CallJson (JObj [("error", JStr (message (HttpError e)));
                              ("ok", JBool false)])])%list
  /\ sent (stResponse result.2)
     = Some (mkSent (status (HttpError e))
                    (if noBody (status (HttpError e)) then BodyEmpty
                     else BodyJson (JObj [("error", JStr (message (HttpError e)));
                                          ("ok", JBool false)]))).
Proof.
  intros Hres Hbody Hsse Hcall Hopen Hquiet Hbefore Hrejected Hstatus result.
  subst result. rewrite (dispatcher_quiet _ _ _ _ _ _ _ _ _ _ Hres Hbody Hquiet).
  rewrite Hcall, (attempt_in_time _ _ _ Hsse Hbefore), Hrejected.
  unfold conclude. set (s0 := mkState _ _ _).
  by rewrite (finishError_open e s0 Hopen Hstatus).
Qed.

Lemma rejection_before_timeout_is_reported_witness :
  let failing := Sample.method JUndefined
                   (fun _ => Normal (Promise (SettlesAfter 3 (Rejected Sample.noKey)))) in
  let result := dispatcher Sample.singleton Sample.settings "ProvisioningController" 1
                           failing Sample.request Sample.start in
  result.1 = Done tt
  /\ calls (stResponse result.2)
     = [CallStatus (JNum 400);
        CallJson (JObj [("error", JStr "No key provided"); ("ok", JBool false)])]
  /\ sent (stResponse result.2)
     = Some (mkSent 400 (BodyJson (JObj [("error", JStr "No key provided");
                                         ("ok", JBool false)]))).
Proof.
  intros failing result.
  apply (rejection_before_timeout_is_reported Sample.singleton Sample.settings
           "ProvisioningController" 1 failing Sample.request Sample.start 2
           (mkState Sample.cloned Sample.response [])
           (JObj [("publicKey", JStr "key")])
           (SettlesAfter 3 (Rejected Sample.noKey)) Sample.noKey
           ltac:(vm_compute; reflexivity) ltac:(vm_compute; reflexivity)
           ltac:(reflexivity) ltac:(reflexivity) ltac:(repeat split)
           ltac:(reflexivity) ltac:(reflexivity) ltac:(reflexivity)
           ltac:(simpl; lia)).
Defined.

(** ** The dispatcher on a streaming route (lines 43-56, 130-162) *)

Lemma finish_error_sent (e : JsValue) (r : Response) (s : State) (x : Sent) :
  sent r = Some x ->
  finish (answerError e r) s
  = (Raised headersSentError,
     withResponse s
       (mkResponse (resId r) (locals_oauth r) (calls r ++ errorCalls e)
                   (JNum (status (HttpError e))) (Some x)
                   (forHead r) (validatorsMatch r))).
Proof. intros Hsent. unfold answerError. by rewrite (answer_sent _ _ _ _ Hsent). Qed.

(** The stage of a streaming route hands a request over only with the head
    of the response sent: status 200 and the stream headers.  A dispatcher
    that runs on a response whose head is sent never completes, once the
    instance is resolved and the body destructured: whatever the method
    returns, every answer of the dispatcher throws, in the [try] block and in
    the [catch] block, the error leaves the dispatcher, and what was sent is
    left as it was; the method is invoked once all the same. *)
Theorem dispatch_after_the_head_never_completes constitute settings controllerName
        controller mappedFunction request s inst s1 filtered (x : Sent) :
  resolveInstance constitute controllerName controller s = (Done inst, s1) ->
  objectRest "access_token" (body request) = Normal filtered ->
  sent (stResponse s) = Some x ->
  let result := dispatcher constitute settings controllerName controller
                           mappedFunction request s in
  result.1 = Raised headersSentError
  /\ sent (stResponse result.2) = Some x
  /\ stInvoked result.2
     = (stInvoked s
          ++ [(inst, requestArguments (route mappedFunction) request filtered)])%list
  /\ (forall rq rs rq' rs',
        serverSentEventsMiddleware rq rs = MwNext rq' rs' ->
        sent rs = None /\ sent rs' = Some (mkSent 200 (BodyStream sseHeaders))).
Proof.
  intros Hres Hbody Hsent result.
  destruct (resolveInstance_frame _ _ _ _ _ _ Hres) as [Hr Hi].
  split; [| split; [| split]].
  4:{ intros rq rs rq' rs'. unfold serverSentEventsMiddleware, perform, sendBody. simpl.
      destruct (sent rs); [done |]. simpl. intros [= _ <-]. done. }
  3:{ subst result. rewrite (dispatcher_steps _ _ _ _ _ _ _ _ _ _ Hres Hbody).
      destruct (guarded_frame settings mappedFunction request inst filtered
                  (attached inst request s1)) as (_ & Hinv & _).
      cbv zeta in Hinv. rewrite Hinv. simpl. by rewrite Hi. }
  all: subst result; rewrite (dispatcher_steps _ _ _ _ _ _ _ _ _ _ Hres Hbody);
    rewrite guarded_cases;
    set (early := writesUntil _ _);
    set (s0 := invoked _ _ _ early);
    assert (sent (stResponse s0) = Some x) as Hsent0
      by (unfold s0; simpl;
          destruct (performAll_frame early (stResponse s1)) as (_ & _ & _ & Hkeep);
          apply Hkeep; by rewrite Hr);
    clearbody s0;
    pose proof (attempt_settles settings mappedFunction
                  (call mappedFunction (stHeap (attached inst request s1)) inst
                        (requestArguments (route mappedFunction) request filtered)))
      as Hsettles;
    destruct (attempt _ _ _) as [code payload|e|]; [| | done]; unfold conclude.
  - unfold finishResult. rewrite (answer_sent _ _ _ _ Hsent0).
    set (r1 := mkResponse _ _ _ _ _ _ _).
    by rewrite (finish_error_sent headersSentError r1 s0 x eq_refl).
  - by rewrite (finish_error_sent _ _ _ x Hsent0).
  - unfold finishResult. rewrite (answer_sent _ _ _ _ Hsent0).
    set (r1 := mkResponse _ _ _ _ _ _ _).
    by rewrite (finish_error_sent headersSentError r1 s0 x eq_refl).
  - by rewrite (finish_error_sent _ _ _ x Hsent0).
Qed.

Lemma dispatch_after_the_head_never_completes_witness :
  let result := dispatcher Sample.singleton Sample.settings "ProvisioningController" 1
                           Sample.streaming Sample.request Sample.streamStart in
  result.1 = Raised headersSentError
  /\ sent (stResponse result.2) = Some (mkSent 200 (BodyStream sseHeaders)).
Proof.
  intros result.
  destruct (dispatch_after_the_head_never_completes Sample.singleton Sample.settings
              "ProvisioningController" 1 Sample.streaming Sample.request
              Sample.streamStart 2 (mkState Sample.cloned Sample.streamHead [])
              (JObj [("publicKey", JStr "key")])
              (mkSent 200 (BodyStream sseHeaders))
              ltac:(vm_compute; reflexivity) ltac:(vm_compute; reflexivity)
              ltac:(reflexivity))
    as (Hraised & Hsent & _).
  split; [exact Hraised | exact Hsent].
Defined.

(** ** The timeout on a streaming route (lines 137-149) *)

(** On a route with server-sent events the configured timeout plays no part:
    the dispatcher does the same under any two settings. *)
Theorem sse_dispatch_ignores_timeout constitute (settings settings' : Settings)
        controllerName controller mappedFunction request s :
  truthy (serverSentEvents mappedFunction) = true ->
  dispatcher constitute settings controllerName controller mappedFunction request s
  = dispatcher constitute settings' controllerName controller mappedFunction request s.
Proof.
  intros Hsse.
  unfold dispatcher, invokeAndRespond, invoke, respondResult, resumeRank, theRace,
    raceGuard.
  by rewrite Hsse.
Qed.

Lemma sse_dispatch_ignores_timeout_witness :
  let streaming := Sample.method (JBool true)
                     (fun _ => Normal (Promise (SettlesAfter 5 (Fulfilled (Sample.created "abc"))))) in
  dispatcher Sample.singleton (mkSettings 3600 1 "/oauth/token")
             "ProvisioningController" 1 streaming Sample.request Sample.start
  = dispatcher Sample.singleton (mkSettings 3600 1000 "/oauth/token")
               "ProvisioningController" 1 streaming Sample.request Sample.start.
Proof.
  intros streaming.
  apply (sse_dispatch_ignores_timeout Sample.singleton (mkSettings 3600 1 "/oauth/token")
           (mkSettings 3600 1000 "/oauth/token") "ProvisioningController" 1 streaming
           Sample.request Sample.start).
  reflexivity.
Defined.

(** ** Any number of requests in flight (lines 109-122) *)

Section ManyRequests.

Variable constitute : string -> Heap -> Completion Ref * Heap.
Variable settings : Settings.
Variables (controllerName : string) (controller : Ref).

Hypothesis shared : forall h, constitute controllerName h = (Normal controller, h).

Local Abbreviation after := (heapAfter constitute settings controllerName controller).
Local Abbreviation afterAll :=
  (heapAfterAll constitute settings controllerName controller).
Local Abbreviation instances :=
  (instancesOf constitute settings controllerName controller).

(** The dispatches keep the objects they find. *)
Lemma heapAfterAll_keeps (arrivals : list Arrival) (h : Heap) (b : Ref) :
  b ∈ dom h ->
  afterAll arrivals h !! b = h !! b /\ b ∈ dom (afterAll arrivals h).
Proof.
  revert h. induction arrivals as [|a arrivals IH]; intros h Hb; [done |].
  destruct (heapAfter_shared constitute settings controllerName controller a h
              (shared h)) as (Hfresh & _ & Hframe & Hdom).
  assert (b ∈ dom (after a h)) as Hb'
      by (rewrite Hdom; by apply elem_of_union_r).
  destruct (IH (after a h) Hb') as [Hsame Hin].
  unfold heapAfterAll in *. simpl. split; [| done].
  rewrite Hsame. apply Hframe. by intros ->.
Qed.

Lemma instancesOf_fresh (arrivals : list Arrival) (h : Heap) :
  Forall (fun inst => inst ∉ dom h) (instances arrivals h).
Proof.
  revert h. induction arrivals as [|a arrivals IH]; intros h; [constructor |].
  destruct (heapAfter_shared constitute settings controllerName controller a h
              (shared h)) as (Hfresh & _ & _ & Hdom).
  simpl. constructor; [done |].
  eapply Forall_impl; [apply IH |]. simpl. intros inst Hinst Hin.
  apply Hinst. rewrite Hdom. by apply elem_of_union_r.
Qed.

(** Against a container that hands back the shared instance, any sequence of
    dispatches gives every request an object of its own: the objects are
    pairwise distinct and new, and after all the dispatches the object of
    each request still carries the request, the response and the user of
    that request and of no other. *)
Theorem every_request_keeps_its_scope (arrivals : list Arrival) (h : Heap) :
  length (instances arrivals h) = length arrivals
  /\ NoDup (instances arrivals h)
  /\ Forall (fun inst => inst ∉ dom h) (instances arrivals h)
  /\ forall i a inst,
      arrivals !! i = Some a ->
      instances arrivals h !! i = Some inst ->
      afterAll arrivals h !! inst
      = Some (scopeObject controller (aRequest a) (aResponse a))
      /\ scopeSeen (afterAll arrivals h) inst = scopeOf (aRequest a) (aResponse a).
Proof.
  revert h. induction arrivals as [|a arrivals IH]; intros h.
  { simpl. split; [done |]. split; [apply NoDup_nil_2 |].
    split; [constructor |]. intros i a inst Hi. done. }
  destruct (heapAfter_shared constitute settings controllerName controller a h
              (shared h)) as (Hfresh & Hobj & Hframe & Hdom).
  destruct (IH (after a h)) as (Hlen & Hnodup & Hnew & Hscope).
  split; [simpl; by rewrite Hlen |].
  split.
  { simpl. constructor; [| done]. intros Hin.
    pose proof (instancesOf_fresh arrivals (after a h)) as Hrest.
    rewrite Forall_forall in Hrest. apply (Hrest _ Hin).
    rewrite Hdom. by apply elem_of_union_l, elem_of_singleton. }
  split; [apply instancesOf_fresh |].
  intros i b inst Hi Hinst.
  assert (afterAll (a :: arrivals) h = afterAll arrivals (after a h)) as -> by done.
  destruct i as [|i]; simpl in Hi, Hinst.
  - injection Hi as <-. injection Hinst as <-.
    assert (fresh (dom h) ∈ dom (after a h)) as Hin
        by (rewrite Hdom; by apply elem_of_union_l, elem_of_singleton).
    destruct (heapAfterAll_keeps arrivals (after a h) _ Hin) as [Hsame _].
    assert (afterAll arrivals (after a h) !! fresh (dom h)
            = Some (scopeObject controller (aRequest a) (aResponse a))) as Hfinal
        by (by rewrite Hsame).
    split; [exact Hfinal |]. by apply (scopeSeen_object _ _ controller).
  - exact (Hscope i b inst Hi Hinst).
Qed.

End ManyRequests.

Lemma every_request_keeps_its_scope_witness :
  let arrivals := [Sample.first; Sample.second; Sample.first] in
  let final := heapAfterAll Sample.singleton Sample.settings "ProvisioningController" 1
                            arrivals Sample.heap in
  instancesOf Sample.singleton Sample.settings "ProvisioningController" 1
              arrivals Sample.heap = [2; 3; 4]
  /\ scopeSeen final 3
     = (Some (SRequest 8), Some (SResponse 8), Some (SData (JStr "bob"))).
Proof.
  intros arrivals final.
  destruct (every_request_keeps_its_scope Sample.singleton Sample.settings
              "ProvisioningController" 1 (fun h => eq_refl) arrivals Sample.heap)
    as (_ & _ & _ & Hscope).
  assert (instancesOf Sample.singleton Sample.settings "ProvisioningController" 1
                      arrivals Sample.heap = [2; 3; 4]) as Hinstances
      by (vm_compute; reflexivity).
  split; [exact Hinstances |].
  destruct (Hscope 1 Sample.second 3 eq_refl) as [_ Hseen].
  - by rewrite Hinstances.
  - exact Hseen.
Defined.

(** ** The scan, the chain and the routes as a whole *)

Lemma injectUser_token (request : Request) (response : Response) props tprops :
  locals_oauth response = JObj props ->
  assoc "token" props = Some (JObj tprops) ->
  injectUserMiddleware request response
  = MwNext (setUser request (default JUndefined (assoc "user" tprops))) response.
Proof.
  intros Hlocals Htoken. unfold injectUserMiddleware. rewrite Hlocals. simpl.
  by rewrite Htoken.
Qed.

Lemma sse_stage_keeps (condition : JsValue) q r q' r' :
  maybe serverSentEventsMiddleware condition q r = MwNext q' r' ->
  locals_oauth r' = locals_oauth r /\ user q' = user q.
Proof.
  unfold maybe. destruct (truthy condition); [| by intros [= <- <-]].
  unfold serverSentEventsMiddleware.
  destruct (perform_frame (CallWriteHead 200 sseHeaders) r) as (_ & Hl & _).
  destruct (perform _ r) as [[[]|e] r1]; [| done]. by intros [= <- <-].
Qed.

Lemma errorHandler_answer (e code : JsValue) (s : State) :
  getProp e "code" = Normal code ->
  errorHandler e s
  = finish (answer (JNum 400) (errorBody (if truthy code then code else e))
                   (stResponse s)) s.
Proof.
  intros Hcode. unfold errorHandler, answer, finish.
  unfold mbind, M_bind, respond, liftC, withResponse. simpl. rewrite Hcode. simpl.
  by destruct (sendBody _ _) as [[[]|thrown] r'].
Qed.

Section Routes.

Variable constitute : string -> Heap -> Completion Ref * Heap.
Variable methodsOf : Ref -> list ControllerMethod.
Variable oauth_authenticate : Middleware.
Variable oauth_token : Middleware.
Variable multer_fields : JsValue -> Middleware.
Variable multer_any : Middleware.
Variable app_member : string -> string -> Completion (list (option string * string)).
Variable matchPath : string -> string -> option (gmap string JsValue).
Variable settings : Settings.

Local Abbreviation bindOne :=
  (bindMethod constitute oauth_authenticate multer_fields multer_any app_member
              settings).
Local Abbreviation bindAll :=
  (bindMethods constitute oauth_authenticate multer_fields multer_any app_member
               settings).
Local Abbreviation configure :=
  (routeConfig constitute methodsOf oauth_authenticate oauth_token multer_fields
               multer_any app_member settings).
Local Abbreviation uploads := (filesMiddleware multer_fields multer_any).
Local Abbreviation serve := (handle matchPath).
Local Abbreviation dispatch := (dispatcher constitute settings).

(** What the scan registers for one method. *)
Lemma bindMethod_cases controllerName controller mappedFunction bound :
  bindOne controllerName controller mappedFunction = Normal bound ->
  routable mappedFunction ->
  (truthy (httpVerb mappedFunction) = false /\ bound = [])
  \/ (truthy (httpVerb mappedFunction) = true
      /\ exists layer,
          bound = [layer]
          /\ layerVerb layer = Some (toPropertyKey (httpVerb mappedFunction))
          /\ layerPath layer = route mappedFunction).
Proof.
  intros Hbind Hroutable.
  destruct (truthy (httpVerb mappedFunction)) eqn:Hverb.
  - right. split; [done |].
    destruct (bindMethod_layers _ _ _ _ _ _ _ _ _ _ Hbind Hverb)
      as (files & registered & Hfiles & Hreg & ->).
    unfold registrations in Hreg. rewrite decide_True in Hreg by (by apply Hroutable).
    injection Hreg as <-. eexists. by repeat split.
  - left. split; [done |].
    unfold bindMethod in Hbind. rewrite Hverb in Hbind. by injection Hbind.
Qed.

(** For a controller whose methods name routing methods of the application
    as their verbs, a scan that succeeds registers one route for every method
    that carries a verb and none for the others, in the order of the
    controller's methods, each under the verb and the path of its method. *)
Theorem scan_registers_routable_methods_in_order controllerName controller
        (methods : list ControllerMethod) (bound : list Layer) :
  bindAll controllerName controller methods = Normal bound ->
  Forall routable methods ->
  map layerPath bound
  = map route (filter (fun m => truthy (httpVerb m)) methods)
  /\ map layerVerb bound
     = map (fun m => Some (toPropertyKey (httpVerb m)))
           (filter (fun m => truthy (httpVerb m)) methods)
  /\ length bound = length (filter (fun m => truthy (httpVerb m)) methods).
Proof.
  revert bound. induction methods as [|m methods IH]; intros bound Hbind Hroutable.
  { by injection Hbind as <-. }
  simpl in Hbind. unfold mbind, Completion_bind in Hbind.
  destruct (bindOne controllerName controller m) as [one|e] eqn:Hone; [| done].
  destruct (bindAll controllerName controller methods) as [others|e] eqn:Hothers;
    [| done].
  injection Hbind as <-.
  apply Forall_cons in Hroutable as [Hm Hrest].
  destruct (IH others eq_refl Hrest) as (Hpaths & Hverbs & Hlen).
  rewrite filter_cons.
  destruct (bindMethod_cases _ _ _ _ Hone Hm)
    as [[Hverb ->] | (Hverb & layer & -> & Hlv & Hlp)].
  - rewrite decide_False by (rewrite Hverb; auto). done.
  - rewrite decide_True by (by rewrite Hverb). simpl.
    rewrite Hlv, Hlp, Hpaths, Hverbs, Hlen. done.
Qed.

Lemma handle_error (layer : Layer) (rest : list Layer) request s ps e rq rs :
  layerMatches matchPath layer request = Some ps ->
  runChain (layerChain layer) (setParams request ps) (stResponse s)
  = MwNextError e rq rs ->
  serve (layer :: rest) request s = runHandler (errorHandler e) (withResponse s rs).
Proof. intros Hmatch Hchain. simpl. by rewrite Hmatch, Hchain. Qed.

(** An error that a stage of a matching route hands to the framework (a
    truthy value other than the framework's own ["route"] and ["router"]
    signals) goes to the error handler of the application, which sets status
    400 and hands to [json] a body whose [error] is the error's [code] when it
    has a truthy one and the error itself otherwise; no controller method is
    invoked and the heap is left alone.  On a response that is still to be
    sent the request is answered with that status and that body (without the
    body when it is a HEAD request); on a response whose head is sent the
    [json] call throws and the error leaves the handler. *)
Theorem stage_error_is_answered_with_400 (layer : Layer) (rest : list Layer)
        request s ps e rq rs :
  layerMatches matchPath layer request = Some ps ->
  runChain (layerChain layer) (setParams request ps) (stResponse s)
  = MwNextError e rq rs ->
  truthy e = true ->
  e <> JStr "route" ->
  e <> JStr "router" ->
  let result := serve (layer :: rest) request s in
  exists code,
    getProp e "code" = Normal code
    /\ calls (stResponse result.2)
       = (calls rs
            ++ [CallStatus (JNum 400);
                CallJson (JObj [("error", if truthy code then code else e);
                                ("ok", JBool false)])])%list
    /\ stInvoked result.2 = stInvoked s
    /\ stHeap result.2 = stHeap s
    /\ (sent rs = None ->
        result.1 = Responded
        /\ sent (stResponse result.2)
           = Some (mkSent 400
                     (if forHead rs then BodyEmpty
                      else BodyJson (JObj [("error", if truthy code then code else e);
                                           ("ok", JBool false)]))))
    /\ (forall x, sent rs = Some x ->
          result.1 = Escaped headersSentError
          /\ sent (stResponse result.2) = Some x).
Proof.
  intros Hmatch Hchain He _ _ result. subst result.
  rewrite (handle_error layer rest request s ps e rq rs Hmatch Hchain).
  destruct (getProp e "code") as [code|thrown] eqn:Hcode.
  2:{ destruct e; simplify_eq/=; repeat case_match; simplify_eq. }
  exists code. split; [done |].
  unfold runHandler. rewrite (errorHandler_answer e code _ Hcode). simpl.
  destruct (sent rs) as [x|] eqn:Hsent.
  - rewrite (answer_sent (JNum 400) _ rs x Hsent). simpl.
    repeat split; try done. all: by intros y [= <-].
  - rewrite (answer_open (JNum 400) _ rs Hsent eq_refl). simpl.
    split; [done |]. split; [done |]. split; [done |]. split; [| done].
    intros _. split; [done |].
    unfold transmit. simpl. by destruct (validatorsMatch rs), (forHead rs).
Qed.

(** The login route is registered before every controller route: a request
    that matches it and that the token handler of the OAuth server answers is
    answered by that handler alone, whatever the controllers bind. *)
Theorem login_route_comes_first controllers h layers h1 request s ps answered :
  configure controllers h = (Normal layers, h1) ->
  layerMatches matchPath
               (mkLayer (Some "post") (LOGIN_ROUTE settings) [oauth_token] None)
               request = Some ps ->
  oauth_token (setParams request ps) (stResponse s) = MwStop answered ->
  serve layers request s = (Responded, mkState (stHeap s) answered (stInvoked s)).
Proof.
  intros Hconf Hmatch Htoken.
  destruct (routeConfig_layers _ _ _ _ _ _ _ _ _ _ _ _ Hconf) as (bound & ->).
  simpl. rewrite Hmatch. simpl. by rewrite Htoken.
Qed.

End Routes.

Section Requests.

Variable constitute : string -> Heap -> Completion Ref * Heap.
Variable oauth_authenticate : Middleware.
Variable multer_fields : JsValue -> Middleware.
Variable multer_any : Middleware.
Variable app_member : string -> string -> Completion (list (option string * string)).
Variable matchPath : string -> string -> option (gmap string JsValue).
Variable settings : Settings.

Local Abbreviation bindOne :=
  (bindMethod constitute oauth_authenticate multer_fields multer_any app_member
              settings).
Local Abbreviation uploads := (filesMiddleware multer_fields multer_any).
Local Abbreviation serve := (handle matchPath).
Local Abbreviation dispatch := (dispatcher constitute settings).

(** The parser that the upload factory returns. *)
Lemma filesMiddleware_parser (spec : JsValue) (files : Middleware) :
  uploads spec = Normal files ->
  files = multer_any \/ exists fields, files = multer_fields fields.
Proof.
  unfold filesMiddleware, mbind, Completion_bind, mret, Completion_ret.
  destruct (nullthrows _) as [checked|e]; [| done].
  destruct (getProp checked "length") as [len|e]; [| done].
  intros [= <-]. destruct (truthy len); eauto.
Qed.

(** A request whose chain hands over reaches the dispatcher of the route. *)
Lemma handle_dispatch controllerName controller mappedFunction layer
      (rest : list Layer) request s ps rq rs :
  bindOne controllerName controller mappedFunction = Normal [layer] ->
  layerMatches matchPath layer request = Some ps ->
  runChain (layerChain layer) (setParams request ps) (stResponse s) = MwNext rq rs ->
  serve (layer :: rest) request s
  = runHandler (dispatch controllerName controller mappedFunction rq)
               (withResponse s rs).
Proof.
  intros Hbind Hmatch Hchain.
  assert (truthy (httpVerb mappedFunction) = true) as Hverb
      by (by eapply bindMethod_verb).
  destruct (bindMethod_layers _ _ _ _ _ _ _ _ _ _ Hbind Hverb)
    as (files & registered & _ & _ & Hlayer).
  destruct registered as [|r [|r' registered]]; simplify_eq/=.
  by rewrite Hmatch, Hchain.
Qed.

(** On a route bound for a controller whose shared instance the container
    hands back, with or without uploads and server-sent events: once the
    chain of the route hands a request and a response over, the method is
    invoked on the object made for that request, through which it sees that
    request, that response and the user of that request.  That user is the
    user of the token, when the authentication has handed the request over
    with a token on the response and the upload parser leaves the user of a
    request as it is. *)
Theorem method_sees_the_user_of_the_token controllerName controller mappedFunction
        layer (rest : list Layer) request s ps rq rs h1 :
  bindOne controllerName controller mappedFunction = Normal [layer] ->
  layerMatches matchPath layer request = Some ps ->
  runChain (layerChain layer) (setParams request ps) (stResponse s) = MwNext rq rs ->
  constitute controllerName (stHeap s) = (Normal controller, h1) ->
  let result := serve (layer :: rest) request s in
  scopeSeen (stHeap result.2) (fresh (dom h1))
  = (Some (SRequest (reqId rq)), Some (SResponse (resId rs)), Some (SData (user rq)))
  /\ (forall this args, (this, args) ∈ stInvoked result.2 ->
        (this, args) ∈ stInvoked s \/ this = fresh (dom h1))
  /\ (forall rq0 rs0 props tprops,
        maybe oauth_authenticate (JBool (negb (truthy (anonymous mappedFunction))))
              (setParams request ps) (stResponse s) = MwNext rq0 rs0 ->
        locals_oauth rs0 = JObj props ->
        assoc "token" props = Some (JObj tprops) ->
        keepsUser multer_any ->
        (forall fields, keepsUser (multer_fields fields)) ->
        user rq = default JUndefined (assoc "user" tprops)).
Proof.
  intros Hbind Hmatch Hchain Hc result.
  subst result. rewrite (handle_dispatch _ _ _ _ rest _ _ _ _ _ Hbind Hmatch Hchain).
  assert ((runHandler (dispatch controllerName controller mappedFunction rq)
                      (withResponse s rs)).2
          = (dispatch controllerName controller mappedFunction rq (withResponse s rs)).2)
    as -> by (unfold runHandler; by destruct (dispatch _ _ _ _ _) as [[[]|e|] s']).
  destruct (dispatch_shared constitute settings controllerName controller
              mappedFunction rq (withResponse s rs) h1 Hc)
    as (_ & _ & Hscope & _ & _ & Hreceiver).
  split; [by rewrite Hscope |]. split; [exact Hreceiver |].
  intros rq0 rs0 props tprops Hfirst Hlocals Htoken Hany Hfields.
  assert (truthy (httpVerb mappedFunction) = true) as Hverb
      by (by eapply bindMethod_verb).
  destruct (bindMethod_layers _ _ _ _ _ _ _ _ _ _ Hbind Hverb)
    as (files & registered & Hfiles & _ & Hlayer).
  destruct registered as [|r [|r' registered]]; simplify_eq/=.
  rewrite Hfirst in Hchain.
  destruct (maybe serverSentEventsMiddleware (serverSentEvents mappedFunction) rq0 rs0)
    as [rq1 rs1| |] eqn:Hsse; try discriminate Hchain.
  destruct (sse_stage_keeps _ _ _ _ _ Hsse) as [Hl1 Hu1].
  rewrite (injectUser_token rq1 rs1 props tprops) in Hchain
    by (by rewrite ?Hl1).
  destruct (maybe files (allowedUploads mappedFunction)
                  (setUser rq1 (default JUndefined (assoc "user" tprops))) rs1)
    as [rq2 rs2| |] eqn:Hup; try discriminate Hchain.
  injection Hchain as <- <-.
  unfold maybe in Hup. destruct (truthy (allowedUploads mappedFunction)).
  - destruct (filesMiddleware_parser _ _ Hfiles) as [-> | [fields ->]].
    + by rewrite (Hany _ _ _ _ Hup).
    + by rewrite (Hfields fields _ _ _ _ Hup).
  - by injection Hup as <- _.
Qed.

End Requests.

Lemma scan_registers_routable_methods_in_order_witness :
  let helper := mkMethod JUndefined JUndefined JUndefined "" JUndefined
                         (fun _ _ _ => Normal (Value JUndefined)) (fun _ _ _ => []) in
  map layerPath Sample.bound
  = map route (filter (fun m => truthy (httpVerb m)) [helper; Sample.provision; helper])
  /\ map layerVerb Sample.bound = [Some "post"].
Proof.
  intros helper.
  assert (Forall routable [helper; Sample.provision; helper]) as Hroutable.
  { repeat constructor; unfold routable; simpl; discriminate. }
  destruct (scan_registers_routable_methods_in_order Sample.singleton
              Sample.authenticate Sample.fields Sample.any Sample.member Sample.settings
              "ProvisioningController" 1 [helper; Sample.provision; helper]
              Sample.bound eq_refl Hroutable) as (Hpaths & Hverbs & _).
  split; [exact Hpaths | exact Hverbs].
Defined.

Lemma stage_error_is_answered_with_400_witness :
  let result := handle Sample.matchPath [Sample.rejecting] Sample.upload Sample.start in
  result.1 = Responded
  /\ calls (stResponse result.2)
     = [CallStatus (JNum 400);
        CallJson (JObj [("error", JStr "LIMIT_UNEXPECTED_FILE"); ("ok", JBool false)])]
  /\ sent (stResponse result.2)
     = Some (mkSent 400 (BodyJson (JObj [("error", JStr "LIMIT_UNEXPECTED_FILE");
                                         ("ok", JBool false)])))
  /\ stInvoked result.2 = [].
Proof.
  intros result.
  destruct (stage_error_is_answered_with_400 Sample.matchPath Sample.rejecting []
              Sample.upload Sample.start ∅ Sample.unexpectedFile
              (setParams Sample.upload ∅) Sample.response eq_refl eq_refl eq_refl
              ltac:(discriminate) ltac:(discriminate))
    as (code & Hcode & Hcalls & Hinvoked & _ & Hopen & _).
  injection Hcode as <-.
  destruct (Hopen eq_refl) as [Hdone Hsent].
  split; [exact Hdone |]. split; [exact Hcalls |]. split; [exact Hsent | exact Hinvoked].
Defined.

Lemma login_route_comes_first_witness :
  handle Sample.matchPath Sample.layers Sample.login Sample.start
  = (Responded, mkState Sample.heap Sample.tokenAnswer []).
Proof.
  apply (login_route_comes_first Sample.singleton Sample.methodsOf
           Sample.authenticate Sample.token Sample.fields Sample.any Sample.member
           Sample.matchPath Sample.settings ["ProvisioningController"] Sample.heap
           Sample.layers Sample.heap Sample.login Sample.start ∅ Sample.tokenAnswer).
  - reflexivity.
  - reflexivity.
  - reflexivity.
Defined.

Lemma method_sees_the_user_of_the_token_witness :
  let result := handle Sample.matchPath Sample.bound Sample.request Sample.start in
  scopeSeen (stHeap result.2) (fresh (dom Sample.heap))
  = (Some (SRequest 7), Some (SResponse 7), Some (SData (JStr "alice"))).
Proof.
  intros result.
  destruct (method_sees_the_user_of_the_token Sample.singleton Sample.authenticate
              Sample.fields Sample.any Sample.member Sample.matchPath Sample.settings
              "ProvisioningController" 1 Sample.provision _ [] Sample.request
              Sample.start Sample.matched
              (setUser Sample.routed (JStr "alice")) Sample.authenticated
              Sample.heap
              eq_refl ltac:(vm_compute; reflexivity) ltac:(vm_compute; reflexivity)
              eq_refl)
    as [Hscope _].
  exact Hscope.
Defined.

(** ** What the method is never given, and what its receiver inherits *)

Lemma objectRest_drops (k : string) (v filtered : JsValue) :
  objectRest k v = Normal filtered ->
  exists kept, filtered = JObj kept /\ assoc k kept = None.
Proof.
  intros Hrest.
  assert (filtered = JObj (filter (fun kv => negb (String.eqb kv.1 k)) (ownProps v)))
    as -> by (destruct v; simpl in Hrest; by simplify_eq).
  eexists. split; [reflexivity | apply assoc_filter_eq].
Qed.

(** Whatever the container, the request and the method, the dispatcher makes
    no invocation or exactly one, and the last argument of that invocation is
    an object without an [access_token] field: the token of a request never
    reaches a controller method through the body. *)
Theorem method_never_receives_the_token constitute settings controllerName controller
        mappedFunction request s :
  let result := dispatcher constitute settings controllerName controller
                           mappedFunction request s in
  stInvoked result.2 = stInvoked s
  \/ exists this args kept,
      stInvoked result.2 = (stInvoked s ++ [(this, args)])%list
      /\ last args = Some (JObj kept)
      /\ assoc "access_token" kept = None.
Proof.
  intros result. subst result.
  destruct (resolveInstance constitute controllerName controller s)
    as [[inst|e|] s1] eqn:Hres.
  - destruct (dispatcher_state constitute settings controllerName controller
                mappedFunction request s inst s1 Hres)
      as [_ [Hsame | (filtered & Hrest & Hinvoked)]]; [by left |].
    right. destruct (objectRest_drops _ _ _ Hrest) as (kept & -> & Hkept).
    eexists inst, _, kept. split; [exact Hinvoked |].
    split; [apply last_snoc | exact Hkept].
  - left. rewrite (dispatcher_resolution_fails _ _ _ _ _ _ _ _ _ Hres). simpl.
    by destruct (resolveInstance_frame _ _ _ _ _ _ Hres).
  - left. unfold dispatcher. unfold mbind at 1, M_bind. rewrite Hres. simpl.
    by destruct (resolveInstance_frame _ _ _ _ _ _ Hres).
Qed.

Lemma lookupChain_agree (fuel : nat) (h h' : Heap) (k : string) (a : Ref) :
  (forall b, b ∈ dom h -> h' !! b = h !! b) ->
  closedHeap h ->
  a ∈ dom h ->
  lookupChain fuel h' a k = lookupChain fuel h a k.
Proof.
  intros Hagree Hclosed. revert a.
  induction fuel as [|n IH]; intros a Ha; [done |].
  simpl. rewrite (Hagree a Ha).
  destruct (h !! a) as [o|] eqn:Ho; [| done].
  destruct (own o !! k); [done |].
  destruct (proto o) as [p|] eqn:Hp; [| done].
  apply IH. by eapply Hclosed.
Qed.

(** The object made for a request shadows the three request-scoped fields
    and nothing else: every other field read through it is the field of the
    shared instance, found along the prototype link. *)
Theorem request_object_inherits_the_shared_fields constitute settings controllerName
        controller mappedFunction request s h1 (k : string) :
  constitute controllerName (stHeap s) = (Normal controller, h1) ->
  closedHeap h1 ->
  controller ∈ dom h1 ->
  k <> "request" -> k <> "response" -> k <> "user" ->
  getField (stHeap (dispatcher constitute settings controllerName controller
                               mappedFunction request s).2)
           (fresh (dom h1)) k
  = getField h1 controller k.
Proof.
  intros Hc Hclosed Hlive Hk1 Hk2 Hk3.
  destruct (dispatch_shared constitute settings controllerName controller
              mappedFunction request s h1 Hc)
    as (Hfresh & Hobj & _ & Hframe & Hdom & _).
  set (h' := stHeap (dispatcher constitute settings controllerName controller
                                mappedFunction request s).2) in *.
  assert (forall b, b ∈ dom h1 -> h' !! b = h1 !! b) as Hagree.
  { intros b Hb. apply Hframe. by intros ->. }
  assert (size h' = S (size h1)) as Hsize.
  { rewrite <- !size_dom, Hdom, size_union, size_singleton; [done |].
    intros x Hx%elem_of_singleton Hin. by subst x. }
  unfold getField. rewrite Hsize.
  change (lookupChain (S (S (size h1))) h' (fresh (dom h1)) k)
    with (match h' !! fresh (dom h1) with
          | None => None
          | Some o =>
              match own o !! k with
              | Some v => Some v
              | None =>
                  match proto o with
                  | Some p => lookupChain (S (size h1)) h' p k
                  | None => None
                  end
              end
          end).
  rewrite Hobj. simpl.
  rewrite !lookup_insert_ne by done. rewrite lookup_empty.
  exact (lookupChain_agree (S (size h1)) h1 h' k controller Hagree Hclosed Hlive).
Qed.

Lemma request_object_inherits_the_shared_fields_witness :
  let shared : Heap := {[ 1 := mkObject None {[ "deviceRepository" := SData (JStr "devices") ]} ]} in
  getField (stHeap (dispatcher Sample.singleton Sample.settings "ProvisioningController" 1
                               Sample.provision Sample.request
                               (mkState shared Sample.response [])).2)
           (fresh (dom shared)) "deviceRepository"
  = Some (SData (JStr "devices")).
Proof.
  intros shared.
  rewrite (request_object_inherits_the_shared_fields Sample.singleton Sample.settings
             "ProvisioningController" 1 Sample.provision Sample.request
             (mkState shared Sample.response []) shared "deviceRepository").
  - reflexivity.
  - reflexivity.
  - intros b o p Hb Hp. unfold shared in Hb.
    apply lookup_singleton_Some in Hb as [_ <-]. discriminate Hp.
  - unfold shared. rewrite dom_singleton_L. by apply elem_of_singleton.
  - discriminate.
  - discriminate.
  - discriminate.
Defined.
